(** * Resumable upload for the drive backend (backend/drive/upload.go)

    A shallow embedding of the resumable-upload client: the negotiation
    ([Fs.Upload]), the request builder ([makeRequest]), the status probe
    ([transferStatus]), the chunk sender ([transferChunk]) and the transfer
    loop ([resumableUpload.Upload]).

    The Go code talks to an HTTP client, mutates [rx.ret] and two captured
    locals, and hands closures to the pacer.  It is modelled in a state
    monad that also records the calls it makes (a trace), over an
    environment [Env] that gathers what the file takes from elsewhere: the
    HTTP client, the JSON codec, the retry predicate, the pacer's budget
    and the configuration constants.  The payload bytes of a chunk are not
    modelled: only sizes, offsets and headers are.

    Offsets and sizes are [int64] in the code and [Z] here.  The loop keeps
    [0 <= start <= ContentLength] and takes [reqSize] between 1 and
    [ContentLength - start], so none of its operations leaves the range of
    [int64] ([loop_arithmetic_in_range]) and no wrap-around is written. *)

From Stdlib Require Import ZArith List String Ascii Bool Lia.
From Stdlib Require Import DecimalString.
From Stdlib Require DecimalPos Sorted.
Import ListNotations.
Open Scope string_scope.
Open Scope Z_scope.

(** ** Integers and strings *)

(** [fmt.Sprintf("%v", n)] for an [int64]: signed decimal. *)
Definition sprintv (n : Z) : string := NilZero.string_of_int (Z.to_int n).

(** The largest [int64]. *)
Definition maxInt64 : Z := 2 ^ 63 - 1.

Definition isDigit (c : ascii) : bool :=
  let n := nat_of_ascii c in (48 <=? n)%nat && (n <=? 57)%nat.

Fixpoint allDigits (s : string) : bool :=
  match s with
  | EmptyString => true
  | String c s' => isDigit c && allDigits s'
  end.

(** Value of a string of decimal digits, most significant first. *)
Fixpoint digitsValue (acc : Z) (s : string) : Z :=
  match s with
  | EmptyString => acc
  | String c s' => digitsValue (10 * acc + (Z.of_nat (nat_of_ascii c) - 48)) s'
  end.

(** [rangeRE = regexp.MustCompile(`^0\-(\d+)$`)]: [FindStringSubmatch]
    gives two elements exactly when the whole string is [0-] followed by
    one or more digits; the result here is [m[1]]. *)
Definition rangeRE_submatch (s : string) : option string :=
  match s with
  | String "0" (String "-" rest) =>
      match rest with
      | EmptyString => None
      | _ => if allDigits rest then Some rest else None
      end
  | _ => None
  end.

(** [strconv.ParseInt(s, 10, 64)] on a string of digits, as [rangeRE]
    delivers it: the value, or nothing when it does not fit an [int64]. *)
Definition parseInt64 (s : string) : option Z :=
  let v := digitsValue 0 s in
  if v <=? maxInt64 then Some v else None.

(** ** HTTP messages *)

(** [http.Header], keys in canonical form. *)
Definition Header : Type := list (string * string).

Fixpoint Header_Get (key : string) (h : Header) : string :=
  match h with
  | [] => ""
  | (k, v) :: h' => if String.eqb k key then v else Header_Get key h'
  end.

Fixpoint Header_Set (key value : string) (h : Header) : Header :=
  match h with
  | [] => [(key, value)]
  | (k, v) :: h' =>
      if String.eqb k key then (k, value) :: h' else (k, v) :: Header_Set key value h'
  end.

Record Request : Type := mkRequest {
  req_Method : string;
  req_URL : string;
  req_Header : Header;
  req_ContentLength : Z
}.

Record Response : Type := mkResponse {
  StatusCode : Z;
  resp_Header : Header;
  resp_Body : string
}.

Definition statusResumeIncomplete : Z := 308.
Definition StatusOK : Z := 200.
Definition StatusCreated : Z := 201.

(** ** Errors *)

Inductive error : Type :=
| ErrTransport (what : string)     (* an error from [client.Do] *)
| ErrJSON (what : string)          (* an error from the JSON encoder or decoder *)
| ErrNewRequest                    (* [http.NewRequest] refused the URL *)
| ErrHTTP (code : Z)               (* [*googleapi.Error] built by [CheckResponse] *)
| ErrUnexpectedCode (code : Z)     (* "unexpected http return code %v" *)
| ErrParseRange (range : string)   (* "unable to parse range %q" *)
| ErrIncomplete (code : Z)         (* RetryErrorf "Incomplete upload - retry, last error %d" *)
| ErrRetry (cause : error)         (* an error wrapped as "please retry" *)
| ErrOther (what : string).        (* whatever else a collaborator reports *)

(** [googleapi.CheckResponse] (google.golang.org/api): no error exactly for
    the 2xx codes, otherwise an error that carries the code. *)
Definition CheckResponse (res : Response) : option error :=
  if (200 <=? StatusCode res) && (StatusCode res <=? 299) then None
  else Some (ErrHTTP (StatusCode res)).

(** ** The environment

    What upload.go takes from outside: the HTTP client behind [f.client],
    the JSON codec, the URL helpers, the pacer's budget, and the package
    variables declared in other files of the backend. *)

Record Env : Type := mkEnv {
  (** state of the HTTP client and of the server behind it *)
  Conn : Type;
  (** [drive.File], the metadata record *)
  File : Type;
  (** [f.client.Do(req)]: a response and an error, either of which may be nil *)
  client_Do : Request -> Conn -> (option Response * option error) * Conn;
  (** [json.NewDecoder(body).Decode(&ret)]: the new value of [ret] and the error *)
  json_Decode : string -> option File -> option File * option error;
  (** [googleapi.WithoutDataWrapper.JSONReader(info)] *)
  JSONReader : option File -> string + error;
  (** whether [http.NewRequest] accepts the URL *)
  validURL : string -> bool;
  (** [url.Values.Encode] *)
  Values_Encode : list (string * string) -> string;
  (** [googleapi.Expand] of the [{fileId}] template *)
  Expand : string -> string -> string;
  (** which errors the retry predicate of the backend wants retried *)
  retryable : error -> bool;
  (** how many times the pacer calls a closure again after its first call *)
  pacer_retries : nat;
  (** what the pacer returns once its budget is spent *)
  pacer_giveUp : option error -> option error;
  (** package variables [chunkSize], [partialFields], [driveKeepRevisionForever] *)
  chunkSize : Z;
  partialFields : string;
  driveKeepRevisionForever : bool
}.

(** ** State, trace and the monad *)

(** The steps of a run that the properties speak of. *)
Inductive Event : Type :=
| EvPacerBegin                                   (* the pacer hands control to a closure *)
| EvPacerEnd (again : bool)                      (* the closure came back *)
| EvDebug (start reqSize : Z)                    (* fs.Debugf "Sending chunk %d length %d" *)
| EvDo (req : Request) (out : option Response * option error)   (* one [client.Do] *)
| EvChunk (code : Z) (err : option error).       (* what [transferChunk] reported to the loop *)

Inductive Outcome (A : Type) : Type :=
| Ret (a : A)      (* the call returns [a] *)
| Panic            (* a run-time panic: nil dereference, negative [make] *)
| OutOfFuel.       (* the loop was cut short by the model's fuel *)
Arguments Ret {A} a.
Arguments Panic {A}.
Arguments OutOfFuel {A}.

Section Upload.

Context (E : Env).

(** The mutable store: the connection, the field [rx.ret], and the locals
    that the closures capture and assign ([StatusCode] in
    [resumableUpload.Upload], [res] in [Fs.Upload]). *)
Record Mem : Type := mkMem {
  conn : Conn E;
  rx_ret : option (File E);
  var_StatusCode : Z;
  var_res : option Response
}.

Definition M (A : Type) : Type := Mem -> Outcome A * Mem * list Event.

Definition ret {A : Type} (a : A) : M A := fun m => (Ret a, m, []).

Definition bind {A B : Type} (x : M A) (f : A -> M B) : M B := fun m =>
  match x m with
  | (Ret a, m1, t1) => let '(o, m2, t2) := f a m1 in (o, m2, (t1 ++ t2)%list)
  | (Panic, m1, t1) => (Panic, m1, t1)
  | (OutOfFuel, m1, t1) => (OutOfFuel, m1, t1)
  end.

Definition panic {A : Type} : M A := fun m => (Panic, m, []).
Definition outOfFuel {A : Type} : M A := fun m => (OutOfFuel, m, []).
Definition emit (ev : Event) : M unit := fun m => (Ret tt, m, [ev]).
Definition gets {A : Type} (f : Mem -> A) : M A := fun m => (Ret (f m), m, []).
Definition modify (f : Mem -> Mem) : M unit := fun m => (Ret tt, f m, []).

(** Dereferencing a pointer that may be nil. *)
Definition deref {A : Type} (p : option A) : M A :=
  match p with Some a => ret a | None => panic end.

Definition set_conn (c : Conn E) (m : Mem) : Mem :=
  mkMem c (rx_ret m) (var_StatusCode m) (var_res m).
Definition set_ret (r : option (File E)) (m : Mem) : Mem :=
  mkMem (conn m) r (var_StatusCode m) (var_res m).
Definition set_StatusCode (c : Z) (m : Mem) : Mem :=
  mkMem (conn m) (rx_ret m) c (var_res m).
Definition set_res (r : option Response) (m : Mem) : Mem :=
  mkMem (conn m) (rx_ret m) (var_StatusCode m) r.

End Upload.

Arguments ret {E A} a.
Arguments bind {E A B} x f.
Arguments panic {E A}.
Arguments outOfFuel {E A}.
Arguments emit {E} ev.
Arguments gets {E A} f.
Arguments modify {E} f.
Arguments deref {E A} p.
Arguments conn {E} m.
Arguments rx_ret {E} m.
Arguments var_StatusCode {E} m.
Arguments var_res {E} m.
Arguments set_conn {E} c m.
Arguments set_ret {E} r m.
Arguments set_StatusCode {E} c m.
Arguments set_res {E} r m.

Declare Scope upload_scope.
Delimit Scope upload_scope with upload.
Notation "x <- c ;; k" := (bind c (fun x => k))
  (at level 100, c at next level, right associativity) : upload_scope.
Notation "' p <- c ;; k" := (bind c (fun x => let p := x in k))
  (at level 100, p pattern, c at next level, right associativity) : upload_scope.
Notation "c ;;; k" := (bind c (fun _ => k))
  (at level 100, right associativity) : upload_scope.
Open Scope upload_scope.

(** ** The code *)

(** The receiver of the upload methods.  [Media] is left out (payload bytes
    are not modelled) and [ret] lives in the store as [rx_ret]. *)
Record resumableUpload : Type := mkRx {
  remote : string;
  URI : string;
  MediaType : string;
  ContentLength : Z
}.

Record Fs : Type := mkFs {
  isTeamDrive : bool
}.

Section Code.

Context (E : Env).

(** [f.client.Do(req)] *)
Definition client_call (req : Request) : M E (option Response * option error) := fun m =>
  let '(out, c) := client_Do E req (conn m) in
  (Ret out, set_conn c m, [EvDo req out]).

(** Modelled from the spec: [shouldRetry], which is declared in drive.go
    and not in this file.  The error-classification predicate is opaque
    ([retryable]); it is asked only about an error, and hands the error
    back unchanged. *)
Definition shouldRetry (err : option error) : bool * option error :=
  match err with
  | None => (false, None)
  | Some e => (retryable E e, Some e)
  end.

(** Modelled from the spec: [f.pacer.Call(fn)], of the pacer package,
    which is not part of this file.  "Invoke with retry": the closure is
    called, and called again as long as it asks for it and the budget
    lasts; the closure's error is the result.  What the pacer returns when
    the budget is spent is left to the environment ([pacer_giveUp]). *)
Fixpoint pacer_call (retries : nat) (fn : M E (bool * option error)) : M E (option error) :=
  emit EvPacerBegin ;;;
  ' (again, err) <- fn ;;
  emit (EvPacerEnd again) ;;;
  if again then
    match retries with
    | O => ret (pacer_giveUp E err)
    | S n => pacer_call n fn
    end
  else ret err.

Definition pacer_Call (fn : M E (bool * option error)) : M E (option error) :=
  pacer_call (pacer_retries E) fn.

(** [makeRequest]: [None] is the nil request that [http.NewRequest] returns
    for a URL it cannot parse; the code drops the error and the next line
    dereferences the request. *)
Definition makeRequest (rx : resumableUpload) (start reqSize : Z) : option Request :=
  if validURL E (URI rx) then
    let h :=
      if negb (reqSize =? 0) then
        Header_Set "Content-Range"
          ("bytes " ++ sprintv start ++ "-" ++ sprintv (start + reqSize - 1)
                    ++ "/" ++ sprintv (ContentLength rx)) []
      else
        Header_Set "Content-Range" ("bytes */" ++ sprintv (ContentLength rx)) [] in
    Some (mkRequest "POST" (URI rx) (Header_Set "Content-Type" (MediaType rx) h) reqSize)
  else None.

(** [transferStatus] *)
Definition transferStatus (rx : resumableUpload) : M E (Z * option error) :=
  req <- deref (makeRequest rx 0 0) ;;
  ' (res, err) <- client_call req ;;
  match err with
  | Some e => ret (0, Some e)
  | None =>
      res <- deref res ;;
      if (StatusCode res =? StatusCreated) || (StatusCode res =? StatusOK) then
        ret (ContentLength rx, None)
      else if negb (StatusCode res =? statusResumeIncomplete) then
        match CheckResponse res with
        | Some e => ret (0, Some e)
        | None => ret (0, Some (ErrUnexpectedCode (StatusCode res)))
        end
      else
        let Range := Header_Get "Range" (resp_Header res) in
        match rangeRE_submatch Range with
        | Some m1 =>
            match parseInt64 m1 with
            | Some start => ret (start, None)
            | None => ret (0, Some (ErrParseRange Range))
            end
        | None => ret (0, Some (ErrParseRange Range))
        end
  end.

(** [json.NewDecoder(res.Body).Decode(&rx.ret)] *)
Definition decode_ret (body : string) : M E (option error) := fun m =>
  let '(r, err) := json_Decode E body (rx_ret m) in
  (Ret err, set_ret r m, []).

(** [transferChunk] *)
Definition transferChunk (rx : resumableUpload) (start chunkSz : Z) : M E (Z * option error) :=
  req <- deref (makeRequest rx start chunkSz) ;;
  ' (res, err) <- client_call req ;;
  match err with
  | Some e => ret (599, Some e)
  | None =>
      res <- deref res ;;
      if StatusCode res =? statusResumeIncomplete then ret (StatusCode res, None)
      else
        match CheckResponse res with
        | Some e => ret (StatusCode res, Some e)
        | None =>
            err <- decode_ret (resp_Body res) ;;
            match err with
            | Some e => ret (598, Some e)
            | None => ret (StatusCode res, None)
            end
        end
  end.

(** [StatusCode, err = rx.transferChunk(...)]: the captured local is
    assigned, and the trace keeps what the loop has just observed. *)
Definition observe (code : Z) (err : option error) : M E unit := fun m =>
  (Ret tt, set_StatusCode code m, [EvChunk code err]).

(** What the closure of the transfer loop does once [transferChunk] has
    reported: classify the error, then let the status code overrule. *)
Definition chunkVerdict (code : Z) (err : option error) : bool * option error :=
  let '(again, err) := shouldRetry err in
  if (code =? statusResumeIncomplete) || (code =? StatusCreated) || (code =? StatusOK)
  then (false, None)
  else (again, err).

(** The closure handed to the pacer for one chunk. *)
Definition sendChunk (rx : resumableUpload) (start reqSize : Z) : M E (bool * option error) :=
  emit (EvDebug start reqSize) ;;;
  ' (code, err) <- transferChunk rx start reqSize ;;
  observe code err ;;;
  ret (chunkVerdict code err).

(** The [for start < rx.ContentLength] loop.  The result is the error of
    the early [return nil, err], or [None] when the loop ran to its end. *)
Fixpoint uploadLoop (fuel : nat) (rx : resumableUpload) (start : Z) : M E (option error) :=
  if start <? ContentLength rx then
    match fuel with
    | O => outOfFuel
    | S fuel' =>
        let reqSize := ContentLength rx - start in
        let reqSize := if reqSize >=? chunkSize E then chunkSize E else reqSize in
        err <- pacer_Call (sendChunk rx start reqSize) ;;
        match err with
        | Some e => ret (Some e)
        | None => uploadLoop fuel' rx (start + reqSize)
        end
    end
  else ret None.

(** [resumableUpload.Upload] *)
Definition Upload (fuel : nat) (rx : resumableUpload) : M E (option (File E) * option error) :=
  modify (set_StatusCode 0) ;;;
  (if chunkSize E <? 0 then panic else ret tt) ;;;
  err <- uploadLoop fuel rx 0 ;;
  match err with
  | Some e => ret (None, Some e)
  | None =>
      r <- gets rx_ret ;;
      match r with
      | None =>
          code <- gets var_StatusCode ;;
          ret (None, Some (ErrIncomplete code))
      | Some file => ret (Some file, None)
      end
  end.

(** [url.Values.Set] *)
Definition Values_Set (key value : string) (v : list (string * string)) :=
  Header_Set key value v.

(** The request of the negotiation, before [googleapi.Expand]. *)
Definition negotiationURL (f : Fs) (fileID : string) : string * string :=
  let params := Values_Set "alt" "json" [] in
  let params := Values_Set "uploadType" "resumable" params in
  let params := Values_Set "fields" (partialFields E) params in
  let params := if isTeamDrive f then Values_Set "supportsTeamDrives" "true" params else params in
  let params := if driveKeepRevisionForever E
                then Values_Set "keepRevisionForever" "true" params else params in
  let urls := "https://www.googleapis.com/upload/drive/v3/files" in
  let method := "POST" in
  let '(params, urls, method) :=
    if negb (String.eqb fileID "")
    then (Values_Set "setModifiedDate" "true" params, urls ++ "/{fileId}", "PATCH")
    else (params, urls, method) in
  (method, urls ++ "?" ++ Values_Encode E params).

(** The closure handed to the pacer by [Fs.Upload]. *)
Definition negotiate (f : Fs) (size : Z) (contentType fileID : string)
    (info : option (File E)) : M E (bool * option error) :=
  let '(method, urls) := negotiationURL f fileID in
  match JSONReader E info with
  | inr e => ret (false, Some e)
  | inl body =>
      if negb (validURL E urls) then ret (false, Some ErrNewRequest)
      else
        let h := Header_Set "Content-Type" "application/json; charset=UTF-8" [] in
        let h := Header_Set "X-Upload-Content-Type" contentType h in
        let h := Header_Set "X-Upload-Content-Length" (sprintv size) h in
        let req := mkRequest method (Expand E urls fileID) h (Z.of_nat (String.length body)) in
        ' (res, err) <- client_call req ;;
        modify (set_res res) ;;;
        match err with
        | Some e => ret (shouldRetry (Some e))
        | None =>
            res <- deref res ;;
            ret (shouldRetry (CheckResponse res))
        end
  end.

(** [Fs.Upload] *)
Definition Fs_Upload (fuel : nat) (f : Fs) (size : Z) (contentType fileID : string)
    (info : option (File E)) (remote : string) : M E (option (File E) * option error) :=
  modify (set_res None) ;;;
  err <- pacer_Call (negotiate f size contentType fileID info) ;;
  match err with
  | Some e => ret (None, Some e)
  | None =>
      r <- gets var_res ;;
      res <- deref r ;;
      let loc := Header_Get "Location" (resp_Header res) in
      modify (set_ret None) ;;;
      Upload fuel (mkRx remote loc contentType size)
  end.

End Code.

Arguments client_call {E} req.
Arguments pacer_call {E} retries fn.
Arguments pacer_Call {E} fn.
Arguments sendChunk {E} rx start reqSize.
Arguments negotiate {E} f size contentType fileID info.

Section Decoded.

Context (E : Env).



End Decoded.

(** ** What can be read off a trace *)

(** The requests handed to the HTTP client, in order. *)
Definition requests (t : list Event) : list Request :=
  flat_map (fun ev => match ev with EvDo req _ => [req] | _ => [] end) t.

(** Their Content-Range values. *)
Definition contentRanges (t : list Event) : list string :=
  map (fun req => Header_Get "Content-Range" (req_Header req)) (requests t).

(** A chunk request (and the status probe) carries a Content-Range header;
    the negotiation request does not. *)
Definition isChunkRequest (req : Request) : bool :=
  negb (String.eqb (Header_Get "Content-Range" (req_Header req)) "").

Definition chunkRequests (t : list Event) : list Request :=
  filter isChunkRequest (requests t).

(** The status code the loop observed last; [c] if it observed none. *)
Definition lastStatusFrom (c : Z) (t : list Event) : Z :=
  fold_left (fun c ev => match ev with EvChunk code _ => code | _ => c end) t c.

Definition lastStatus (t : list Event) : Z := lastStatusFrom 0 t.

(** Whether every [client.Do] of the trace happens inside a call of the
    pacer, that is between an [EvPacerBegin] and the next [EvPacerEnd];
    [inside] tells whether the trace starts inside one. *)
Fixpoint paced (inside : bool) (t : list Event) : bool :=
  match t with
  | [] => true
  | EvPacerBegin :: t' => paced true t'
  | EvPacerEnd _ :: t' => paced false t'
  | EvDo _ _ :: t' => inside && paced inside t'
  | _ :: t' => paced inside t'
  end.

(** The Content-Range value of the chunk of [len] bytes at [start]. *)
Definition contentRange (start len total : Z) : string :=
  "bytes " ++ sprintv start ++ "-" ++ sprintv (start + len - 1) ++ "/" ++ sprintv total.

(** Intervals [(start, len)] that follow one another from [from] up to
    [to], none of them empty. *)
Fixpoint contiguous (from to : Z) (l : list (Z * Z)) : Prop :=
  match l with
  | [] => from = to
  | (s, len) :: l' => s = from /\ 0 < len /\ contiguous (from + len) to l'
  end.

(** In how many of the intervals the offset [x] lies. *)
Definition hits (x : Z) (l : list (Z * Z)) : nat :=
  List.length (filter (fun c => (fst c <=? x) && (x <? fst c + snd c)) l).

(** ** A concrete environment

    A scripted HTTP client (the answers are served in order, whatever the
    request; a run past the script gets a connection error), a toy JSON
    codec (the empty body does not decode, the body [null] decodes to a
    nil record, any other body is the record), a retry predicate that
    retries connection errors and 5xx, and a pacer that allows
    [retries] further calls and wraps the last error when it gives up. *)

Module Demo.

Definition script : Type := list (option Response * option error).

Definition Do (req : Request) (s : script) : (option Response * option error) * script :=
  match s with
  | [] => ((None, Some (ErrTransport "connection refused")), [])
  | out :: s' => (out, s')
  end.

Definition Decode (body : string) (cur : option string) : option string * option error :=
  if String.eqb body "" then (cur, Some (ErrJSON "EOF"))
  else if String.eqb body "null" then (None, None)
  else (Some body, None).

Definition wantsRetry (e : error) : bool :=
  match e with
  | ErrTransport _ => true
  | ErrHTTP code => (500 <=? code) && (code <? 600)
  | _ => false
  end.

Definition giveUp (err : option error) : option error :=
  match err with
  | Some e => Some (ErrRetry e)
  | None => Some (ErrRetry (ErrOther "needs retry"))
  end.

Definition env (retries : nat) (chunk : Z) : Env :=
  {| Conn := script;
     File := string;
     client_Do := Do;
     json_Decode := Decode;
     JSONReader := fun _ => inl "{}";
     validURL := fun _ => true;
     Values_Encode := fun _ => "uploadType=resumable";
     Expand := fun u _ => u;
     retryable := wantsRetry;
     pacer_retries := retries;
     pacer_giveUp := giveUp;
     chunkSize := chunk;
     partialFields := "id";
     driveKeepRevisionForever := false |}.

Definition mem0 (retries : nat) (chunk : Z) (s : script) : Mem (env retries chunk) :=
  mkMem (env retries chunk) s None 0 None.

Definition reply (code : Z) (h : Header) (body : string) : option Response * option error :=
  (Some (mkResponse code h body), None).

Definition broken (what : string) : option Response * option error :=
  (None, Some (ErrTransport what)).

Definition rx10 : resumableUpload := mkRx "a.bin" "https://session/1" "text/plain" 10.

End Demo.

(** ** Relations between a run's store and its trace *)

Section Relations.

Context {E : Env}.

(** A relation between the store before, the trace of a run and the store
    after; [Sound] says that every run of a computation satisfies it. *)
Definition Rel : Type := Mem E -> list Event -> Mem E -> Prop.

Definition Sound {A : Type} (R : Rel) (x : M E A) : Prop :=
  forall m o m' t, x m = (o, m', t) -> R m t m'.

Definition Compositional (R : Rel) : Prop :=
  (forall m, R m [] m) /\
  (forall m t1 m1 t2 m2, R m t1 m1 -> R m1 t2 m2 -> R m (t1 ++ t2)%list m2).

(** What a relation must satisfy to hold of the transfer loop: it composes,
    it holds of the steps that only leave a mark in the trace, of the
    assignment of [StatusCode], and of [transferChunk]. *)
Record Stable (R : Rel) : Prop := {
  st_comp : Compositional R;
  st_begin : forall m, R m [EvPacerBegin] m;
  st_end : forall m again, R m [EvPacerEnd again] m;
  st_debug : forall m start reqSize, R m [EvDebug start reqSize] m;
  st_observe : forall m code err, R m [EvChunk code err] (set_StatusCode code m);
  st_chunk : forall rx start reqSize, Sound R (transferChunk E rx start reqSize)
}.

(** "This part of the store is a fold of the trace." *)
Definition tracks {S : Type} (inv : Mem E -> S) (step : S -> Event -> S) : Rel :=
  fun m t m' => inv m' = fold_left step t (inv m).

(** Relations that speak of the trace alone. *)
Definition always (Q : Event -> Prop) : Rel := fun _ t _ => Forall Q t.

End Relations.

Arguments always E Q : clear implicits.

(** The size of the chunk that the loop sends at [start]. *)
Definition reqSizeAt (E : Env) (rx : resumableUpload) (start : Z) : Z :=
  let reqSize := ContentLength rx - start in
  if reqSize >=? chunkSize E then chunkSize E else reqSize.

(** The status codes that the loop observed, and those that the answers
    carried, in order. *)
Definition observed (t : list Event) : list Z :=
  flat_map (fun ev => match ev with EvChunk code _ => [code] | _ => [] end) t.


(** The codes with which [transferChunk] reports no error. *)
Definition accepted (code : Z) : Prop := code = 308 \/ 200 <= code <= 299.

(** What a closure leaves in the trace: anything but the pacer's marks. *)
Definition closureEvent (ev : Event) : Prop :=
  match ev with
  | EvPacerBegin | EvPacerEnd _ => False
  | _ => True
  end.

(** The closure of the negotiation makes at most one request, and it is
    not a chunk request. *)
Definition negotiationRequest (ev : Event) : Prop :=
  match ev with
  | EvDo req _ => isChunkRequest req = false
  | _ => False
  end.

(** The same inside the pacer. *)
Definition ofNegotiation (ev : Event) : Prop :=
  match ev with
  | EvDo req _ => isChunkRequest req = false
  | EvDebug _ _ | EvChunk _ _ => False
  | _ => True
  end.

(** ** Further vocabulary *)

(** How many chunks the loop still has to send when the cursor is at
    [start], and how many an upload has in all. *)
Definition chunksLeft (E : Env) (rx : resumableUpload) (start : Z) : nat :=
  Z.to_nat ((ContentLength rx - start + chunkSize E - 1) / chunkSize E).

Definition chunkCount (E : Env) (rx : resumableUpload) : nat := chunksLeft E rx 0.

(** The offsets that the loop logs, in order. *)
Definition starts (t : list Event) : list Z :=
  flat_map (fun ev => match ev with EvDebug start _ => [start] | _ => [] end) t.

(** [len] bytes at [start] is a chunk of the upload: it starts on a
    multiple of the chunk size, inside the file, and takes the chunk size
    or what remains. *)
Definition chunkAt (E : Env) (rx : resumableUpload) (start len : Z) : Prop :=
  start mod chunkSize E = 0 /\
  0 <= start < ContentLength rx /\
  len = Z.min (chunkSize E) (ContentLength rx - start).

(** What one iteration for the chunk at [start] leaves in the trace. *)
Definition chunkStep (E : Env) (rx : resumableUpload) (start len : Z) (ev : Event) : Prop :=
  match ev with
  | EvDebug s l => s = start /\ l = len
  | EvDo req _ => makeRequest E rx start len = Some req
  | _ => True
  end.

(** What a run of the loop leaves in the trace. *)
Definition ofChunk (E : Env) (rx : resumableUpload) (ev : Event) : Prop :=
  match ev with
  | EvDebug s l => chunkAt E rx s l
  | EvDo req _ => exists s l, chunkAt E rx s l /\ makeRequest E rx s l = Some req
  | _ => True
  end.

(** The request that the negotiation sends for the encoded metadata
    [body]. *)
Definition firstRequest (E : Env) (f : Fs) (size : Z) (contentType fileID body : string)
    : Request :=
  let '(method, urls) := negotiationURL E f fileID in
  let h := Header_Set "Content-Type" "application/json; charset=UTF-8" [] in
  let h := Header_Set "X-Upload-Content-Type" contentType h in
  let h := Header_Set "X-Upload-Content-Length" (sprintv size) h in
  mkRequest method (Expand E urls fileID) h (Z.of_nat (String.length body)).

(** What [Fs.Upload] as a whole leaves in the trace. *)
Definition ofUpload (E : Env) (f : Fs) (size : Z) (contentType fileID : string)
    (ev : Event) : Prop :=
  match ev with
  | EvDo req _ =>
      isChunkRequest req = true \/
      exists body, req = firstRequest E f size contentType fileID body
  | _ => True
  end.

(** The requests that a run made for the chunk at an offset, as a pair of
    the offset and the requests: the offset is that of a chunk of the
    upload, there are at most (1 + retries) requests, and each is the
    request that [makeRequest] builds for that chunk. *)
Definition chunkBlock (E : Env) (rx : resumableUpload) (b : Z * list Request) : Prop :=
  chunkAt E rx (fst b) (reqSizeAt E rx (fst b))
  /\ (List.length (snd b) <= S (pacer_retries E))%nat
  /\ forall req, In req (snd b) ->
       makeRequest E rx (fst b) (reqSizeAt E rx (fst b)) = Some req.

(** What the HTTP client gave back for the last request of a trace, if
    the trace has a request. *)
Definition lastAnswerFrom (a : option (option Response * option error)) (t : list Event)
    : option (option Response * option error) :=
  fold_left (fun a ev => match ev with EvDo _ out => Some out | _ => a end) t a.

Definition lastAnswer : list Event -> option (option Response * option error) :=
  lastAnswerFrom None.

(** The status codes that [transferChunk] can report for what the client
    gave back: 599 when the round trip failed, else the status of the
    answer, or 598 for a 2xx answer (whose body then did not decode). *)
Definition codeFor (out : option Response * option error) (code : Z) : Prop :=
  match out with
  | (_, Some _) => code = 599
  | (Some res, None) =>
      code = StatusCode res \/ (code = 598 /\ 200 <= StatusCode res <= 299)
  | (None, None) => False
  end.

(** The same for a whole trace: 0 as long as there was no request. *)
Definition codeAfter (t : list Event) (code : Z) : Prop :=
  match lastAnswer t with
  | Some out => codeFor out code
  | None => code = 0
  end.

(** How a trace ends when a chunk made [Upload] return the error [e]:
    with the report of an error [e0] and the pacer's closing mark, where
    [e] is [e0] when the retry predicate wants no retry, and what the
    pacer makes of [e0] when it wants one and the budget is spent. *)
Definition endsWithChunkError (E : Env) (e : error) (t : list Event) : Prop :=
  exists t0 code e0 again,
    t = (t0 ++ [EvChunk code (Some e0); EvPacerEnd again])%list
    /\ retryable E e0 = again
    /\ (if again then pacer_giveUp E (Some e0) = Some e else e = e0).

(** Two more concrete environments. *)

Module Servers.

(** A server that follows the protocol for a file of [total] bytes: it
    counts the bytes it was sent, answers 308 with the range it holds
    while the file is incomplete, and 201 with the record once it is
    complete. *)
Definition Do (total : Z) (req : Request) (held : Z)
    : (option Response * option error) * Z :=
  let held' := held + req_ContentLength req in
  if held' <? total
  then ((Some (mkResponse 308 [("Range", "0-" ++ sprintv (held' - 1))] ""), None), held')
  else ((Some (mkResponse 201 [] "f1"), None), held').

Definition env (total : Z) (retries : nat) (chunk : Z) : Env :=
  {| Conn := Z;
     File := string;
     client_Do := Do total;
     json_Decode := Demo.Decode;
     JSONReader := fun _ => inl "{}";
     validURL := fun _ => true;
     Values_Encode := fun _ => "uploadType=resumable";
     Expand := fun u _ => u;
     retryable := Demo.wantsRetry;
     pacer_retries := retries;
     pacer_giveUp := Demo.giveUp;
     chunkSize := chunk;
     partialFields := "id";
     driveKeepRevisionForever := false |}.

(** The environment of [Demo] with an encoder that fails on a nil record
    and a [http.NewRequest] that takes https URLs only. *)
Definition picky (retries : nat) (chunk : Z) : Env :=
  {| Conn := Demo.script;
     File := string;
     client_Do := Demo.Do;
     json_Decode := Demo.Decode;
     JSONReader := fun info => match info with
                               | Some _ => inl "{}"
                               | None => inr (ErrJSON "nil record")
                               end;
     validURL := fun u => String.prefix "https://" u;
     Values_Encode := fun _ => "uploadType=resumable";
     Expand := fun u _ => u;
     retryable := Demo.wantsRetry;
     pacer_retries := retries;
     pacer_giveUp := Demo.giveUp;
     chunkSize := chunk;
     partialFields := "id";
     driveKeepRevisionForever := false |}.

End Servers.

(** ** Reasoning about runs *)

Section Runs.

Context {E : Env}.

Lemma bind_inv {A B : Type} (x : M E A) (f : A -> M E B) m o m' t :
  bind x f m = (o, m', t) ->
  (exists a m1 t1 t2,
      x m = (Ret a, m1, t1) /\ f a m1 = (o, m', t2) /\ t = (t1 ++ t2)%list)
  \/ (x m = (Panic, m', t) /\ o = Panic)
  \/ (x m = (OutOfFuel, m', t) /\ o = OutOfFuel).
Proof.
  unfold bind. destruct (x m) as [[[a| |] m1] t1].
  - destruct (f a m1) as [[o2 m2] t2] eqn:Hf.
    intros H; inversion H; subst. left. exists a, m1, t1, t2. auto.
  - intros H; inversion H; subst. right; left; auto.
  - intros H; inversion H; subst. right; right; auto.
Qed.

Lemma bind_Ret {A B : Type} (x : M E A) (f : A -> M E B) m a m1 t1 :
  x m = (Ret a, m1, t1) ->
  bind x f m = (let '(o, m2, t2) := f a m1 in (o, m2, (t1 ++ t2)%list)).
Proof. intros H. unfold bind. rewrite H. reflexivity. Qed.

Lemma Sound_bind {A B : Type} (R : @Rel E) (x : M E A) (f : A -> M E B) :
  Compositional R -> Sound R x -> (forall a, Sound R (f a)) -> Sound R (bind x f).
Proof.
  intros [_ Happ] Hx Hf m o m' t H.
  apply bind_inv in H.
  destruct H as [(a & m1 & t1 & t2 & H1 & H2 & ->) | [[H1 _] | [H1 _]]].
  - eapply Happ; [eapply Hx; eauto | eapply Hf; eauto].
  - eapply Hx; eauto.
  - eapply Hx; eauto.
Qed.

Lemma Sound_ret {A : Type} (R : @Rel E) (a : A) : Compositional R -> Sound R (ret a).
Proof. intros [Hnil _] m o m' t H. inversion H; subst. apply Hnil. Qed.

Lemma Sound_panic {A : Type} (R : @Rel E) : Compositional R -> Sound R (@panic E A).
Proof. intros [Hnil _] m o m' t H. inversion H; subst. apply Hnil. Qed.

Lemma Sound_outOfFuel {A : Type} (R : @Rel E) : Compositional R -> Sound R (@outOfFuel E A).
Proof. intros [Hnil _] m o m' t H. inversion H; subst. apply Hnil. Qed.

Lemma Sound_gets {A : Type} (R : @Rel E) (f : Mem E -> A) : Compositional R -> Sound R (gets f).
Proof. intros [Hnil _] m o m' t H. inversion H; subst. apply Hnil. Qed.

Lemma Sound_emit (R : @Rel E) (ev : Event) : (forall m, R m [ev] m) -> Sound R (emit ev).
Proof. intros Hev m o m' t H. inversion H; subst. apply Hev. Qed.

Lemma Sound_pacer_call (R : @Rel E) (fn : M E (bool * option error)) :
  Compositional R ->
  (forall m, R m [EvPacerBegin] m) ->
  (forall m again, R m [EvPacerEnd again] m) ->
  Sound R fn ->
  forall retries, Sound R (pacer_call retries fn).
Proof.
  intros HC Hb He Hfn retries.
  induction retries as [|n IH]; simpl.
  - apply Sound_bind; auto using Sound_emit. intros _.
    apply Sound_bind; auto. intros [again err].
    apply Sound_bind; auto using Sound_emit. intros _.
    destruct again; apply Sound_ret; auto.
  - apply Sound_bind; auto using Sound_emit. intros _.
    apply Sound_bind; auto. intros [again err].
    apply Sound_bind; auto using Sound_emit. intros _.
    destruct again; [exact IH | apply Sound_ret; auto].
Qed.

Lemma Sound_sendChunk (R : @Rel E) rx start reqSize :
  Stable R -> Sound R (sendChunk rx start reqSize).
Proof.
  intros HS. pose proof (st_comp R HS) as HC.
  unfold sendChunk.
  apply Sound_bind; auto. { apply Sound_emit. intros; apply (st_debug R HS). }
  intros _. apply Sound_bind; auto. { apply (st_chunk R HS). }
  intros [code err]. apply Sound_bind; auto.
  { intros m o m' t H. inversion H; subst. apply (st_observe R HS). }
  intros _. apply Sound_ret; auto.
Qed.

Lemma Sound_uploadLoop (R : @Rel E) rx :
  Stable R -> forall fuel start, Sound R (uploadLoop E fuel rx start).
Proof.
  intros HS. pose proof (st_comp R HS) as HC.
  induction fuel as [|fuel IH]; intros start; simpl.
  - destruct (start <? ContentLength rx); [apply Sound_outOfFuel | apply Sound_ret]; auto.
  - destruct (start <? ContentLength rx); [|apply Sound_ret; auto].
    apply Sound_bind; auto.
    + unfold pacer_Call. apply Sound_pacer_call.
      * exact HC.
      * apply (st_begin R HS).
      * apply (st_end R HS).
      * apply Sound_sendChunk; exact HS.
    + intros [e|]; [apply Sound_ret; auto | apply IH].
Qed.

Lemma tracks_comp {S : Type} (inv : Mem E -> S) (step : S -> Event -> S) :
  Compositional (tracks inv step).
Proof.
  split; unfold tracks.
  - reflexivity.
  - intros m t1 m1 t2 m2 H1 H2. rewrite fold_left_app, <- H1. exact H2.
Qed.

(** Every way [transferChunk] can go. *)
Lemma transferChunk_inv rx start reqSize m o m' t :
  transferChunk E rx start reqSize m = (o, m', t) ->
  (makeRequest E rx start reqSize = None /\ o = Panic /\ m' = m /\ t = [])
  \/ exists req res err c,
      makeRequest E rx start reqSize = Some req /\
      client_Do E req (conn m) = ((res, err), c) /\
      t = [EvDo req (res, err)] /\
      ((exists e, err = Some e /\ o = Ret (599, Some e) /\ m' = set_conn c m)
       \/ (err = None /\ res = None /\ o = Panic /\ m' = set_conn c m)
       \/ (exists r, err = None /\ res = Some r /\ StatusCode r = 308 /\
                     o = Ret (308, None) /\ m' = set_conn c m)
       \/ (exists r e, err = None /\ res = Some r /\ StatusCode r <> 308 /\
                       CheckResponse r = Some e /\
                       o = Ret (StatusCode r, Some e) /\ m' = set_conn c m)
       \/ (exists r f derr, err = None /\ res = Some r /\ StatusCode r <> 308 /\
                            CheckResponse r = None /\
                            json_Decode E (resp_Body r) (rx_ret m) = (f, derr) /\
                            m' = set_ret f (set_conn c m) /\
                            o = match derr with
                                | Some e => Ret (598, Some e)
                                | None => Ret (StatusCode r, None)
                                end)).
Proof.
  unfold transferChunk.
  destruct (makeRequest E rx start reqSize) as [req|] eqn:Hreq.
  2:{ simpl. unfold bind, panic. intros H; inversion H; subst. left. auto. }
  intros H. right.
  unfold bind, deref, ret, client_call in H. simpl in H.
  destruct (client_Do E req (conn m)) as [[res err] c] eqn:HDo.
  exists req, res, err, c. split; [reflexivity|]. split; [exact HDo|].
  destruct err as [e|].
  { inversion H; subst. split; [reflexivity|]. left. exists e. auto. }
  destruct res as [r|].
  2:{ inversion H; subst. split; [reflexivity|]. right; left. auto. }
  unfold statusResumeIncomplete in H.
  destruct (StatusCode r =? 308) eqn:H308.
  { apply Z.eqb_eq in H308. inversion H; subst. split; [reflexivity|].
    right; right; left. exists r. rewrite H308. repeat split; auto. }
  apply Z.eqb_neq in H308.
  destruct (CheckResponse r) as [e|] eqn:HCk.
  { inversion H; subst. split; [reflexivity|].
    right; right; right; left. exists r, e. repeat split; auto. }
  unfold decode_ret in H. simpl in H.
  destruct (json_Decode E (resp_Body r) (rx_ret m)) as [f derr] eqn:HDec.
  destruct derr as [e|]; inversion H; subst; (split; [reflexivity|]);
    right; right; right; right; exists r, f; eexists; repeat split; eauto.
Qed.

(** [transferChunk] never reports an error together with one of the three
    codes that the loop takes for an answer of the protocol. *)
Lemma transferChunk_error_code rx start reqSize m code e m' t :
  transferChunk E rx start reqSize m = (Ret (code, Some e), m', t) ->
  code <> 308 /\ code <> 201 /\ code <> 200.
Proof.
  intros H. apply transferChunk_inv in H.
  destruct H as [(_ & H & _) | (req & res & err & c & _ & _ & _ & H)]; [discriminate|].
  destruct H as [(e' & _ & H & _) | [(_ & _ & H & _) | [(r & _ & _ & _ & H & _)
    | [(r & e' & _ & _ & Hne & HCk & H & _) | (r & f & derr & _ & _ & _ & _ & _ & _ & H)]]]].
  - inversion H; subst. lia.
  - discriminate.
  - discriminate.
  - inversion H; subst. unfold CheckResponse in HCk.
    destruct ((200 <=? StatusCode r) && (StatusCode r <=? 299)) eqn:Hb; [discriminate|].
    apply andb_false_iff in Hb. destruct Hb as [Hb|Hb];
      [apply Z.leb_gt in Hb | apply Z.leb_gt in Hb]; lia.
  - destruct derr; inversion H; subst. lia.
Qed.

End Runs.

Example sprintv_0 : sprintv 0 = "0". Proof. reflexivity. Qed.
Example sprintv_99 : sprintv 99 = "99". Proof. reflexivity. Qed.
Example sprintv_neg : sprintv (-1) = "-1". Proof. reflexivity. Qed.
Example range_99 : option_map parseInt64 (rangeRE_submatch "0-99") = Some (Some 99).
Proof. reflexivity. Qed.
Example range_bad : rangeRE_submatch "bytes=0-99" = None.
Proof. reflexivity. Qed.

(** ** The status probe *)

Section Probe.

Context (E : Env).

(** On 308 the probe returns the number that follows [0-] in the Range
    header, as it is. *)
Lemma transferStatus_partial rx m req res c digits :
  makeRequest E rx 0 0 = Some req ->
  client_Do E req (conn m) = ((Some res, None), c) ->
  StatusCode res = 308 ->
  Header_Get "Range" (resp_Header res) = "0-" ++ digits ->
  digits <> "" ->
  allDigits digits = true ->
  digitsValue 0 digits <= maxInt64 ->
  transferStatus E rx m
  = (Ret (digitsValue 0 digits, None), set_conn c m, [EvDo req (Some res, None)]).
Proof.
  intros Hreq HDo H308 HRange Hne Hdig Hfit.
  unfold transferStatus. rewrite Hreq.
  unfold bind, deref, ret, client_call. simpl. rewrite HDo. simpl.
  unfold StatusCreated, StatusOK, statusResumeIncomplete. rewrite H308. simpl.
  rewrite HRange. simpl.
  destruct digits as [|d ds]; [contradiction Hne; reflexivity|].
  rewrite Hdig. unfold parseInt64.
  apply Z.leb_le in Hfit. rewrite Hfit. reflexivity.
Qed.

(** A fully committed session: the probe returns the total size. *)
Lemma transferStatus_complete rx m req res c :
  makeRequest E rx 0 0 = Some req ->
  client_Do E req (conn m) = ((Some res, None), c) ->
  StatusCode res = 200 \/ StatusCode res = 201 ->
  transferStatus E rx m
  = (Ret (ContentLength rx, None), set_conn c m, [EvDo req (Some res, None)]).
Proof.
  intros Hreq HDo Hcode.
  unfold transferStatus. rewrite Hreq.
  unfold bind, deref, ret, client_call. simpl. rewrite HDo. simpl.
  unfold StatusCreated, StatusOK.
  destruct Hcode as [-> | ->]; reflexivity.
Qed.

End Probe.

(** C1 (the code at the input of Scenario C).  A probe of a session of
    1000 bytes whose server answers 308 with [Range: 0-99] returns 99, the
    index of the last byte the server holds, not the committed offset
    100. *)
Theorem transferStatus_Range_0_99 :
  fst (fst (transferStatus (Demo.env 9 4)
              (mkRx "a.bin" "https://session/1" "text/plain" 1000)
              (Demo.mem0 9 4 [Demo.reply 308 [("Range", "0-99")] ""])))
  = Ret (99, None).
Proof. vm_compute. reflexivity. Qed.

(** ** One chunk *)

Section Chunk.

Context (E : Env).

(** Every way the closure of the loop can go. *)
Lemma sendChunk_inv rx start reqSize m o m' t :
  sendChunk rx start reqSize m = (o, m', t) ->
  (exists t1, transferChunk E rx start reqSize m = (Panic, m', t1) /\
              o = Panic /\ t = EvDebug start reqSize :: t1)
  \/ exists code err m1 t1,
      transferChunk E rx start reqSize m = (Ret (code, err), m1, t1) /\
      o = Ret (chunkVerdict E code err) /\
      m' = set_StatusCode code m1 /\
      t = (EvDebug start reqSize :: t1 ++ [EvChunk code err])%list.
Proof.
  unfold sendChunk. unfold bind at 1. unfold emit at 1.
  unfold bind at 1.
  destruct (transferChunk E rx start reqSize m) as [[[[code err]| |] m1] t1] eqn:HT.
  - unfold bind, observe, ret. simpl. intros H; inversion H; subst.
    right. exists code, err, m1, t1. auto.
  - intros H; inversion H; subst. left. exists t1. auto.
  - exfalso. apply transferChunk_inv in HT.
    destruct HT as [(_ & HT & _) | (req & res & err & c & _ & _ & _ & HT)]; [discriminate|].
    destruct HT as [(e & _ & HT & _) | [(_ & _ & HT & _) | [(r & _ & _ & _ & HT & _)
      | [(r & e & _ & _ & _ & _ & HT & _) | (r & f & derr & _ & _ & _ & _ & _ & _ & HT)]]]];
      try discriminate.
    destruct derr; discriminate.
Qed.

(** The closure's answer when [transferChunk] has reported. *)
Lemma sendChunk_reported rx start reqSize m code err m1 t1 :
  transferChunk E rx start reqSize m = (Ret (code, err), m1, t1) ->
  sendChunk rx start reqSize m
  = (Ret (chunkVerdict E code err), set_StatusCode code m1,
     (EvDebug start reqSize :: t1 ++ [EvChunk code err])%list).
Proof.
  intros HT. unfold sendChunk. unfold bind at 1. unfold emit at 1.
  unfold bind at 1. rewrite HT. unfold bind, observe, ret. simpl.
  reflexivity.
Qed.

(** A failed round trip: sentinel 599 and the transport error, whatever
    response came with it. *)
Lemma transferChunk_transport_error rx start reqSize m req r e c :
  makeRequest E rx start reqSize = Some req ->
  client_Do E req (conn m) = ((r, Some e), c) ->
  transferChunk E rx start reqSize m
  = (Ret (599, Some e), set_conn c m, [EvDo req (r, Some e)]).
Proof.
  intros Hreq HDo. unfold transferChunk. rewrite Hreq.
  unfold bind, deref, ret, client_call. simpl. rewrite HDo. reflexivity.
Qed.

(** A 308: accepted, nothing decoded. *)
Lemma transferChunk_308 rx start reqSize m req res c :
  makeRequest E rx start reqSize = Some req ->
  client_Do E req (conn m) = ((Some res, None), c) ->
  StatusCode res = 308 ->
  transferChunk E rx start reqSize m
  = (Ret (308, None), set_conn c m, [EvDo req (Some res, None)]).
Proof.
  intros Hreq HDo H308. unfold transferChunk. rewrite Hreq.
  unfold bind, deref, ret, client_call. simpl. rewrite HDo. simpl.
  unfold statusResumeIncomplete. rewrite H308. reflexivity.
Qed.

(** A 2xx whose body does not decode: sentinel 598 and the decode error. *)
Lemma transferChunk_decode_error rx start reqSize m req res c f e :
  makeRequest E rx start reqSize = Some req ->
  client_Do E req (conn m) = ((Some res, None), c) ->
  200 <= StatusCode res <= 299 ->
  json_Decode E (resp_Body res) (rx_ret m) = (f, Some e) ->
  transferChunk E rx start reqSize m
  = (Ret (598, Some e), set_ret f (set_conn c m), [EvDo req (Some res, None)]).
Proof.
  intros Hreq HDo H2xx HDec. unfold transferChunk. rewrite Hreq.
  unfold bind, deref, ret, client_call. simpl. rewrite HDo. simpl.
  unfold statusResumeIncomplete.
  destruct (StatusCode res =? 308) eqn:H308; [apply Z.eqb_eq in H308; lia|].
  unfold CheckResponse.
  replace ((200 <=? StatusCode res) && (StatusCode res <=? 299)) with true
    by (symmetry; apply andb_true_iff; split; apply Z.leb_le; lia).
  unfold decode_ret. simpl. rewrite HDec. reflexivity.
Qed.

End Chunk.

(** ** The pacer around a closure *)

Section Pacer.

Context (E : Env).

Lemma pacer_call_again (fn : M E (bool * option error)) n m err m1 t1 :
  fn m = (Ret (true, err), m1, t1) ->
  pacer_call (S n) fn m
  = (let '(o, m', t) := pacer_call n fn m1 in
     (o, m', (EvPacerBegin :: t1 ++ [EvPacerEnd true]) ++ t)%list).
Proof.
  intros Hfn. simpl. unfold bind at 1. unfold emit at 1.
  unfold bind at 1. rewrite Hfn. unfold bind at 1. unfold emit at 1.
  destruct (pacer_call n fn m1) as [[o m'] t]. simpl.
  rewrite <- app_assoc. reflexivity.
Qed.

Lemma pacer_call_spent (fn : M E (bool * option error)) m err m1 t1 :
  fn m = (Ret (true, err), m1, t1) ->
  pacer_call O fn m
  = (Ret (pacer_giveUp E err), m1, (EvPacerBegin :: t1 ++ [EvPacerEnd true])%list).
Proof.
  intros Hfn. simpl. unfold bind at 1. unfold emit at 1.
  unfold bind at 1. rewrite Hfn. unfold bind, emit, ret. simpl. reflexivity.
Qed.

Lemma pacer_call_done (fn : M E (bool * option error)) n m err m1 t1 :
  fn m = (Ret (false, err), m1, t1) ->
  pacer_call n fn m = (Ret err, m1, (EvPacerBegin :: t1 ++ [EvPacerEnd false])%list).
Proof.
  intros Hfn. destruct n; simpl; unfold bind at 1; unfold emit at 1;
    unfold bind at 1; rewrite Hfn; unfold bind, emit, ret; simpl; reflexivity.
Qed.

Lemma pacer_call_stops (fn : M E (bool * option error)) n m m1 t1 :
  (fn m = (Panic, m1, t1) -> pacer_call n fn m = (Panic, m1, EvPacerBegin :: t1)) /\
  (fn m = (OutOfFuel, m1, t1) -> pacer_call n fn m = (OutOfFuel, m1, EvPacerBegin :: t1)).
Proof.
  split; intros Hfn; destruct n; simpl; unfold bind at 1; unfold emit at 1;
    unfold bind at 1; rewrite Hfn; reflexivity.
Qed.

(** Every way one call of the pacer can start. *)
Lemma pacer_call_inv (fn : M E (bool * option error)) n m o m' t :
  pacer_call n fn m = (o, m', t) ->
  (exists err t1, fn m = (Ret (false, err), m', t1) /\ o = Ret err /\
                  t = (EvPacerBegin :: t1 ++ [EvPacerEnd false])%list)
  \/ (exists err t1, fn m = (Ret (true, err), m', t1) /\ n = O /\
                     o = Ret (pacer_giveUp E err) /\
                     t = (EvPacerBegin :: t1 ++ [EvPacerEnd true])%list)
  \/ (exists err m1 t1 n' t2, fn m = (Ret (true, err), m1, t1) /\ n = S n' /\
                              pacer_call n' fn m1 = (o, m', t2) /\
                              t = ((EvPacerBegin :: t1 ++ [EvPacerEnd true]) ++ t2)%list)
  \/ (exists t1, (fn m = (Panic, m', t1) /\ o = Panic \/
                  fn m = (OutOfFuel, m', t1) /\ o = OutOfFuel) /\
                 t = EvPacerBegin :: t1).
Proof.
  intros H.
  destruct (fn m) as [[[[[|] err]| |] m1] t1] eqn:Hfn.
  - destruct n as [|n'].
    + rewrite (pacer_call_spent fn m err m1 t1 Hfn) in H. inversion H; subst.
      right; left. exists err, t1. auto.
    + rewrite (pacer_call_again fn n' m err m1 t1 Hfn) in H.
      destruct (pacer_call n' fn m1) as [[o2 m2] t2] eqn:Hrec. inversion H; subst.
      right; right; left. exists err, m1, t1, n', t2. auto.
  - rewrite (pacer_call_done fn n m err m1 t1 Hfn) in H. inversion H; subst.
    left. exists err, t1. auto.
  - rewrite (proj1 (pacer_call_stops fn n m m1 t1) Hfn) in H. inversion H; subst.
    right; right; right. exists t1. auto.
  - rewrite (proj2 (pacer_call_stops fn n m m1 t1) Hfn) in H. inversion H; subst.
    right; right; right. exists t1. auto.
Qed.

End Pacer.

(** ** The cursor of the transfer loop *)

Lemma reqSizeAt_min E rx start :
  reqSizeAt E rx start = Z.min (chunkSize E) (ContentLength rx - start).
Proof.
  unfold reqSizeAt. simpl.
  destruct (ContentLength rx - start >=? chunkSize E) eqn:H.
  - apply Z.geb_le in H. lia.
  - rewrite Z.geb_leb in H. apply Z.leb_gt in H. lia.
Qed.

(** The arithmetic of one iteration stays within [int64]. *)
Lemma loop_arithmetic_in_range E rx start :
  0 < chunkSize E ->
  0 <= start < ContentLength rx ->
  ContentLength rx <= maxInt64 ->
  0 < reqSizeAt E rx start <= ContentLength rx - start
  /\ 0 <= start + reqSizeAt E rx start - 1 <= maxInt64
  /\ 0 < start + reqSizeAt E rx start <= ContentLength rx.
Proof.
  intros HC Hs Hmax. rewrite reqSizeAt_min. lia.
Qed.

Lemma uploadLoop_step E fuel rx start :
  start < ContentLength rx ->
  forall m,
    uploadLoop E (S fuel) rx start m
    = bind (pacer_Call (sendChunk rx start (reqSizeAt E rx start)))
        (fun err => match err with
                    | Some e => ret (Some e)
                    | None => uploadLoop E fuel rx (start + reqSizeAt E rx start)
                    end) m.
Proof.
  intros Hlt m. simpl. apply Z.ltb_lt in Hlt. rewrite Hlt. reflexivity.
Qed.

Lemma uploadLoop_end E fuel rx start m :
  ContentLength rx <= start ->
  uploadLoop E fuel rx start m = (Ret None, m, []).
Proof.
  intros Hge. apply Z.ltb_ge in Hge.
  destruct fuel; simpl; rewrite Hge; reflexivity.
Qed.

(** C5.  In the transfer loop, at offset [start] with chunk size
    [reqSize]: (1) a 308 answer makes the loop go on at [start + reqSize];
    (2) an attempt that reports an error the retry predicate wants retried
    is followed, while the pacer's budget lasts, by another call of the
    same closure, that is for the same [start] and [reqSize]; (3) when the
    round trip fails twice with a retryable error and then gets a 308, the
    loop makes exactly three attempts, all for [start], and then goes on
    at [start + reqSize]. *)
Theorem chunk_retry_then_advance (E : Env) (rx : resumableUpload) (start : Z) :
  start < ContentLength rx ->
  (forall fuel m req res c,
      makeRequest E rx start (reqSizeAt E rx start) = Some req ->
      client_Do E req (conn m) = ((Some res, None), c) ->
      StatusCode res = 308 ->
      uploadLoop E (S fuel) rx start m
      = (let '(o, m', t) :=
           uploadLoop E fuel rx (start + reqSizeAt E rx start)
             (set_StatusCode 308 (set_conn c m)) in
         (o, m',
          [EvPacerBegin; EvDebug start (reqSizeAt E rx start);
           EvDo req (Some res, None); EvChunk 308 None; EvPacerEnd false] ++ t)%list))
  /\
  (forall n m code e m1 t1,
      transferChunk E rx start (reqSizeAt E rx start) m = (Ret (code, Some e), m1, t1) ->
      retryable E e = true ->
      pacer_call (S n) (sendChunk rx start (reqSizeAt E rx start)) m
      = (let '(o, m', t) :=
           pacer_call n (sendChunk rx start (reqSizeAt E rx start))
             (set_StatusCode code m1) in
         (o, m',
          (EvPacerBegin :: EvDebug start (reqSizeAt E rx start) :: t1
             ++ [EvChunk code (Some e); EvPacerEnd true]) ++ t)%list))
  /\
  (forall fuel m req r1 e1 c1 r2 e2 c2 res c3,
      (2 <= pacer_retries E)%nat ->
      makeRequest E rx start (reqSizeAt E rx start) = Some req ->
      client_Do E req (conn m) = ((r1, Some e1), c1) -> retryable E e1 = true ->
      client_Do E req c1 = ((r2, Some e2), c2) -> retryable E e2 = true ->
      client_Do E req c2 = ((Some res, None), c3) -> StatusCode res = 308 ->
      uploadLoop E (S fuel) rx start m
      = (let '(o, m', t) :=
           uploadLoop E fuel rx (start + reqSizeAt E rx start)
             (set_StatusCode 308 (set_conn c3 m)) in
         (o, m',
          [EvPacerBegin; EvDebug start (reqSizeAt E rx start);
           EvDo req (r1, Some e1); EvChunk 599 (Some e1); EvPacerEnd true;
           EvPacerBegin; EvDebug start (reqSizeAt E rx start);
           EvDo req (r2, Some e2); EvChunk 599 (Some e2); EvPacerEnd true;
           EvPacerBegin; EvDebug start (reqSizeAt E rx start);
           EvDo req (Some res, None); EvChunk 308 None; EvPacerEnd false] ++ t)%list)).
Proof.
  intros Hlt. split; [|split].
  - intros fuel m req res c Hreq HDo H308.
    rewrite (uploadLoop_step E fuel rx start Hlt).
    pose proof (transferChunk_308 E rx start _ m req res c Hreq HDo H308) as HT.
    apply sendChunk_reported in HT.
    unfold pacer_Call.
    erewrite bind_Ret by (apply pacer_call_done; exact HT).
    reflexivity.
  - intros n m code e m1 t1 HT Hretry.
    destruct (transferChunk_error_code rx start _ m code e m1 t1 HT) as (N1 & N2 & N3).
    apply sendChunk_reported in HT.
    assert (HV : chunkVerdict E code (Some e) = (true, Some e)).
    { unfold chunkVerdict, shouldRetry. rewrite Hretry.
      unfold statusResumeIncomplete, StatusCreated, StatusOK.
      apply Z.eqb_neq in N1, N2, N3. rewrite N1, N2, N3. reflexivity. }
    rewrite HV in HT.
    rewrite (pacer_call_again E _ n m _ _ _ HT).
    destruct (pacer_call n _ _) as [[o m'] t].
    simpl. rewrite <- !app_assoc. reflexivity.
  - intros fuel m req r1 e1 c1 r2 e2 c2 res c3 Hbudget Hreq H1 R1 H2 R2 H3 H308.
    rewrite (uploadLoop_step E fuel rx start Hlt).
    unfold pacer_Call.
    destruct (pacer_retries E) as [|[|n]]; [lia | lia |].
    pose proof (transferChunk_transport_error E rx start _ m req r1 e1 c1 Hreq H1) as T1.
    apply sendChunk_reported in T1.
    pose proof (transferChunk_transport_error E rx start _
                  (set_StatusCode 599 (set_conn c1 m)) req r2 e2 c2 Hreq H2) as T2.
    apply sendChunk_reported in T2.
    pose proof (transferChunk_308 E rx start _
                  (set_StatusCode 599 (set_conn c2 (set_StatusCode 599 (set_conn c1 m))))
                  req res c3 Hreq H3 H308) as T3.
    apply sendChunk_reported in T3.
    assert (HV : forall e, retryable E e = true -> chunkVerdict E 599 (Some e) = (true, Some e)).
    { intros e He. unfold chunkVerdict, shouldRetry. rewrite He. reflexivity. }
    rewrite (HV e1 R1) in T1. rewrite (HV e2 R2) in T2.
    erewrite bind_Ret.
    2:{ rewrite (pacer_call_again E _ _ m _ _ _ T1).
        rewrite (pacer_call_again E _ _ _ _ _ _ T2).
        rewrite (pacer_call_done E _ _ _ _ _ _ T3). reflexivity. }
    reflexivity.
Qed.

(** Scenario B: the second of three chunks (offset 4 of 10 bytes, chunk
    size 4) meets two connection errors and then a 308; the third chunk
    is answered 201. *)
Lemma chunk_retry_then_advance_witness :
  uploadLoop (Demo.env 9 4) 2 Demo.rx10 4
    (Demo.mem0 9 4 [Demo.broken "reset"; Demo.broken "reset"; Demo.reply 308 [] "";
                    Demo.reply 201 [] "f1"])
  = (Ret None,
     mkMem (Demo.env 9 4) [] (Some "f1") 201 None,
     let req := mkRequest "POST" "https://session/1"
                  [("Content-Range", "bytes 4-7/10"); ("Content-Type", "text/plain")] 4 in
     let last := mkRequest "POST" "https://session/1"
                  [("Content-Range", "bytes 8-9/10"); ("Content-Type", "text/plain")] 2 in
     [EvPacerBegin; EvDebug 4 4;
      EvDo req (Demo.broken "reset"); EvChunk 599 (Some (ErrTransport "reset"));
      EvPacerEnd true;
      EvPacerBegin; EvDebug 4 4;
      EvDo req (Demo.broken "reset"); EvChunk 599 (Some (ErrTransport "reset"));
      EvPacerEnd true;
      EvPacerBegin; EvDebug 4 4;
      EvDo req (Demo.reply 308 [] ""); EvChunk 308 None; EvPacerEnd false;
      EvPacerBegin; EvDebug 8 2;
      EvDo last (Demo.reply 201 [] "f1"); EvChunk 201 None; EvPacerEnd false]).
Proof.
  assert (Hlt : 4 < ContentLength Demo.rx10) by (vm_compute; reflexivity).
  pose proof (proj2 (proj2 (chunk_retry_then_advance (Demo.env 9 4) Demo.rx10 4 Hlt))) as H.
  specialize (H 1%nat
    (Demo.mem0 9 4 [Demo.broken "reset"; Demo.broken "reset"; Demo.reply 308 [] "";
                    Demo.reply 201 [] "f1"])
    (mkRequest "POST" "https://session/1"
       [("Content-Range", "bytes 4-7/10"); ("Content-Type", "text/plain")] 4)
    None (ErrTransport "reset")
    [Demo.broken "reset"; Demo.reply 308 [] ""; Demo.reply 201 [] "f1"]
    None (ErrTransport "reset") [Demo.reply 308 [] ""; Demo.reply 201 [] "f1"]
    (mkResponse 308 [] "") [Demo.reply 201 [] "f1"]).
  rewrite H; try reflexivity.
  simpl. lia.
Defined.

(** ** What the loop leaves in [StatusCode] and in [rx.ret] *)

Section Tracking.

Context (E : Env).

(** [StatusCode] holds the code that [transferChunk] reported last. *)
Lemma Stable_StatusCode :
  Stable (E := E)
    (tracks var_StatusCode
       (fun c ev => match ev with EvChunk code _ => code | _ => c end)).
Proof.
  constructor; try (intros; reflexivity).
  - apply tracks_comp.
  - intros rx start reqSize m o m' t H. unfold tracks.
    apply transferChunk_inv in H.
    destruct H as [(_ & _ & -> & ->) | (req & res & err & c & _ & _ & -> & H)];
      [reflexivity|].
    destruct H as [(e & _ & _ & ->) | [(_ & _ & _ & ->) | [(r & _ & _ & _ & _ & ->)
      | [(r & e & _ & _ & _ & _ & _ & ->) | (r & f & derr & _ & _ & _ & _ & _ & -> & _)]]]];
      reflexivity.
Qed.

Lemma uploadLoop_StatusCode fuel rx start m o m' t :
  uploadLoop E fuel rx start m = (o, m', t) ->
  var_StatusCode m' = lastStatusFrom (var_StatusCode m) t.
Proof.
  intros H. exact (Sound_uploadLoop _ rx Stable_StatusCode fuel start m o m' t H).
Qed.



(** [Upload] around its loop. *)
Lemma Upload_unfold fuel rx m :
  0 <= chunkSize E ->
  Upload E fuel rx m
  = (let '(o, m', t) := uploadLoop E fuel rx 0 (set_StatusCode 0 m) in
     match o with
     | Ret (Some e) => (Ret (None, Some e), m', t)
     | Ret None =>
         match rx_ret m' with
         | Some file => (Ret (Some file, None), m', t)
         | None => (Ret (None, Some (ErrIncomplete (var_StatusCode m'))), m', t)
         end
     | Panic => (Panic, m', t)
     | OutOfFuel => (OutOfFuel, m', t)
     end).
Proof.
  intros HC. apply Z.ltb_ge in HC.
  unfold Upload. rewrite HC.
  unfold bind at 1. unfold modify at 1. unfold bind at 1. unfold ret at 1.
  unfold bind at 1.
  destruct (uploadLoop E fuel rx 0 (set_StatusCode 0 m)) as [[[[e|]| |] m'] t];
    try reflexivity.
  - unfold ret. simpl. rewrite app_nil_r. reflexivity.
  - unfold bind, gets, ret. simpl.
    destruct (rx_ret m'); simpl; rewrite app_nil_r; reflexivity.
Qed.

Lemma lastStatus_last t0 code err t1 :
  Forall (fun ev => match ev with EvChunk _ _ => False | _ => True end) t1 ->
  lastStatus (t0 ++ EvChunk code err :: t1) = code.
Proof.
  intros Hno. unfold lastStatus, lastStatusFrom. rewrite fold_left_app. simpl.
  generalize dependent code. induction t1 as [|ev t1 IH]; intros code; simpl.
  - reflexivity.
  - inversion Hno as [|? ? Hev Hrest]; subst. destruct ev; try contradiction; auto.
Qed.

End Tracking.

(** ** The status code against the retry predicate *)

Lemma chunkVerdict_override (E : Env) code err :
  code = 308 \/ code = 200 \/ code = 201 ->
  chunkVerdict E code err = (false, None).
Proof.
  intros H. unfold chunkVerdict, statusResumeIncomplete, StatusCreated, StatusOK.
  destruct (shouldRetry E err) as [again err'].
  destruct H as [-> | [-> | ->]]; reflexivity.
Qed.

(** C7 (as the code has it).  When the status code that [transferChunk]
    reports is 308, 200 or 201, the attempt counts as a success: there is
    no error with it, the closure asks for no retry, and the pacer returns
    nil after this one attempt.  A transport-level error of the round trip
    is reported as 599 whatever response came with it, and the closure
    answers what the retry predicate says of the error. *)
Theorem status_code_overrules (E : Env) rx start reqSize m code err m1 t1 :
  transferChunk E rx start reqSize m = (Ret (code, err), m1, t1) ->
  (code = 308 \/ code = 200 \/ code = 201 ->
   err = None /\
   forall n,
     pacer_call n (sendChunk rx start reqSize) m
     = (Ret None, set_StatusCode code m1,
        (EvPacerBegin :: (EvDebug start reqSize :: t1 ++ [EvChunk code err])
           ++ [EvPacerEnd false])%list))
  /\
  (forall req r e c,
      makeRequest E rx start reqSize = Some req ->
      client_Do E req (conn m) = ((r, Some e), c) ->
      code = 599 /\ err = Some e /\
      fst (fst (sendChunk rx start reqSize m)) = Ret (retryable E e, Some e)).
Proof.
  intros HT. split.
  - intros Hcode. split.
    + destruct err as [e|]; [|reflexivity].
      destruct (transferChunk_error_code rx start reqSize m code e m1 t1 HT) as (N1 & N2 & N3).
      lia.
    + intros n. apply pacer_call_done.
      rewrite (sendChunk_reported E rx start reqSize m code err m1 t1 HT).
      rewrite (chunkVerdict_override E code err Hcode). reflexivity.
  - intros req r e c Hreq HDo.
    rewrite (transferChunk_transport_error E rx start reqSize m req r e c Hreq HDo) in HT.
    inversion HT; subst.
    split; [reflexivity|]. split; [reflexivity|].
    rewrite (sendChunk_reported E rx start reqSize m 599 (Some e) _ _
               (transferChunk_transport_error E rx start reqSize m req r e c Hreq HDo)).
    reflexivity.
Qed.

(** The first of three chunks is answered 308. *)
Lemma status_code_overrules_witness :
  pacer_call 9 (sendChunk Demo.rx10 0 4) (Demo.mem0 9 4 [Demo.reply 308 [] ""])
  = (Ret None, mkMem (Demo.env 9 4) [] None 308 None,
     [EvPacerBegin; EvDebug 0 4;
      EvDo (mkRequest "POST" "https://session/1"
              [("Content-Range", "bytes 0-3/10"); ("Content-Type", "text/plain")] 4)
           (Demo.reply 308 [] "");
      EvChunk 308 None; EvPacerEnd false]).
Proof.
  refine (proj2 (proj1 (status_code_overrules (Demo.env 9 4) Demo.rx10 0 4
                          (Demo.mem0 9 4 [Demo.reply 308 [] ""])
                          308 None (mkMem (Demo.env 9 4) [] None 0 None)
                          [EvDo (mkRequest "POST" "https://session/1"
                                   [("Content-Range", "bytes 0-3/10");
                                    ("Content-Type", "text/plain")] 4)
                                (Demo.reply 308 [] "")] _)
                   _) 9%nat).
  - reflexivity.
  - left. reflexivity.
Defined.

(** C7 (counterexample).  The round trip reports a connection reset
    together with a response that carries 308.  The attempt is not taken
    for a success: the closure reports 599, asks for a retry and hands the
    error on; with one retry allowed the same chunk is sent twice, and
    with none the upload fails with that error. *)
Lemma transport_error_with_308_counterexample :
  let out := (Some (mkResponse 308 [] ""), Some (ErrTransport "reset")) in
  let rx4 := mkRx "a.bin" "https://session/1" "text/plain" 4 in
  fst (fst (sendChunk rx4 0 4 (Demo.mem0 1 4 [out])))
  = Ret (true, Some (ErrTransport "reset"))
  /\
  (let '(o, m, t) := Upload (Demo.env 1 4) 1 rx4 (Demo.mem0 1 4 [out; Demo.reply 201 [] "f1"]) in
   (o, contentRanges t))
  = (Ret (Some "f1", None), ["bytes 0-3/4"; "bytes 0-3/4"])
  /\
  fst (fst (Upload (Demo.env 0 4) 1 rx4 (Demo.mem0 0 4 [out])))
  = Ret (None, Some (ErrRetry (ErrTransport "reset"))).
Proof. vm_compute. repeat split. Qed.

(** ** The result record *)

Section Result.

Context (E : Env).

Lemma Upload_inv fuel rx m o m' t :
  Upload E fuel rx m = (o, m', t) ->
  (chunkSize E < 0 /\ o = Panic /\ m' = set_StatusCode 0 m /\ t = [])
  \/ (0 <= chunkSize E /\
      exists o', uploadLoop E fuel rx 0 (set_StatusCode 0 m) = (o', m', t)).
Proof.
  intros H. destruct (Z.ltb_spec (chunkSize E) 0) as [Hneg|Hpos].
  - left. unfold Upload in H. apply Z.ltb_lt in Hneg. rewrite Hneg in H.
    unfold bind, modify, panic in H. simpl in H. inversion H; subst.
    apply Z.ltb_lt in Hneg. auto.
  - right. split; [exact Hpos|].
    rewrite (Upload_unfold E fuel rx m Hpos) in H.
    destruct (uploadLoop E fuel rx 0 (set_StatusCode 0 m)) as [[[[e|]| |] m1] t1].
    + inversion H; subst. eauto.
    + destruct (rx_ret m1); inversion H; subst; eauto.
    + inversion H; subst. eauto.
    + inversion H; subst. eauto.
Qed.


End Result.




(** ** The shape of the traces *)

Section Shapes.

Context (E : Env).

(** One call of the closure of the loop: the log line, at most one round
    trip, and the report. *)
Lemma sendChunk_trace rx start reqSize m o m' t :
  sendChunk rx start reqSize m = (o, m', t) ->
  (makeRequest E rx start reqSize = None /\ o = Panic /\ t = [EvDebug start reqSize])
  \/ exists req out,
      makeRequest E rx start reqSize = Some req /\
      out = fst (client_Do E req (conn m)) /\
      ((o = Panic /\ t = [EvDebug start reqSize; EvDo req out])
       \/ exists code err,
           o = Ret (chunkVerdict E code err) /\
           t = [EvDebug start reqSize; EvDo req out; EvChunk code err]).
Proof.
  intros H. apply sendChunk_inv in H.
  destruct H as [(t1 & HT & -> & ->) | (code & err & m1 & t1 & HT & -> & _ & ->)];
    apply transferChunk_inv in HT;
    destruct HT as [(Hreq & Ho & _ & ->) | (req & res & err' & c & Hreq & HDo & -> & _)].
  - left. auto.
  - right. exists req, (res, err'). rewrite HDo. split; [exact Hreq|]. split; [reflexivity|].
    left. auto.
  - discriminate.
  - right. exists req, (res, err'). rewrite HDo. split; [exact Hreq|]. split; [reflexivity|].
    right. exists code, err. auto.
Qed.

(** The first thing a call of the pacer does is to call the closure. *)
Lemma pacer_call_first (fn : M E (bool * option error)) n m o m' t :
  pacer_call n fn m = (o, m', t) ->
  exists t2, t = (EvPacerBegin :: snd (fn m) ++ t2)%list.
Proof.
  intros H. apply pacer_call_inv in H.
  destruct H as [(err & t1 & Hfn & _ & ->) | [(err & t1 & Hfn & _ & _ & ->)
    | [(err & m1 & t1 & n' & t2 & Hfn & _ & _ & ->) | (t1 & [[Hfn _]|[Hfn _]] & ->)]]];
    rewrite Hfn; simpl.
  - exists [EvPacerEnd false]. reflexivity.
  - exists [EvPacerEnd true]. reflexivity.
  - exists (EvPacerEnd true :: t2). rewrite <- app_assoc. reflexivity.
  - exists []. rewrite app_nil_r. reflexivity.
  - exists []. rewrite app_nil_r. reflexivity.
Qed.

Lemma always_comp Q : Compositional (always E Q).
Proof.
  split; unfold always.
  - intros _. constructor.
  - intros _ t1 _ t2 _ H1 H2. apply Forall_app. auto.
Qed.

Lemma Sound_client_call Q req :
  (forall out, Q (EvDo req out)) -> Sound (always E Q) (client_call req).
Proof.
  intros HQ m o m' t H. unfold client_call in H.
  destruct (client_Do E req (conn m)) as [out c]. inversion H; subst.
  constructor; [apply HQ | constructor].
Qed.

Lemma Sound_modify Q f : Sound (always E Q) (modify (E := E) f).
Proof. intros m o m' t H. inversion H; subst. constructor. Qed.

Lemma Sound_deref {A : Type} Q (p : option A) : Sound (always E Q) (deref (E := E) p).
Proof.
  destruct p; simpl; [apply Sound_ret | apply Sound_panic]; apply always_comp.
Qed.

Lemma always_weaken {A : Type} (Q Q' : Event -> Prop) (x : M E A) :
  (forall ev, Q ev -> Q' ev) -> Sound (always E Q) x -> Sound (always E Q') x.
Proof.
  intros HQ Hx m o m' t H. unfold always.
  eapply Forall_impl; [exact HQ | exact (Hx m o m' t H)].
Qed.

Lemma negotiate_sound f size contentType fileID info :
  Sound (always E negotiationRequest) (negotiate (E := E) f size contentType fileID info).
Proof.
  pose proof (always_comp negotiationRequest) as HC.
  unfold negotiate. destruct (negotiationURL E f fileID) as [method urls].
  destruct (JSONReader E info) as [body|e]; [|apply Sound_ret; exact HC].
  destruct (negb (validURL E urls)); [apply Sound_ret; exact HC|].
  apply Sound_bind; [exact HC | | ].
  - apply Sound_client_call. intros out. reflexivity.
  - intros [res err]. apply Sound_bind; [exact HC | apply Sound_modify |].
    intros _. destruct err as [e|]; [apply Sound_ret; exact HC|].
    apply Sound_bind; [exact HC | apply Sound_deref |].
    intros r. apply Sound_ret; exact HC.
Qed.

Lemma negotiation_sound f size contentType fileID info n :
  Sound (always E ofNegotiation) (pacer_call n (negotiate (E := E) f size contentType fileID info)).
Proof.
  apply Sound_pacer_call.
  - apply always_comp.
  - intros m. unfold always. repeat constructor.
  - intros m again. unfold always. repeat constructor.
  - apply (always_weaken negotiationRequest ofNegotiation); [|apply negotiate_sound].
    intros ev Hev. destruct ev; simpl in *; auto.
Qed.

Lemma ofNegotiation_no_chunk t :
  Forall ofNegotiation t ->
  chunkRequests t = [] /\ forall start reqSize, ~ In (EvDebug start reqSize) t.
Proof.
  induction 1 as [|ev t Hev Hrest [IH1 IH2]].
  - split; [reflexivity | intros ? ? []].
  - split.
    + destruct ev; simpl in *; try exact IH1; try contradiction.
      unfold chunkRequests in *. simpl. rewrite Hev. exact IH1.
    + intros start reqSize [Heq | Hin].
      * subst ev. exact Hev.
      * exact (IH2 start reqSize Hin).
Qed.

(** [Fs.Upload] around the negotiation. *)
Lemma Fs_Upload_unfold fuel f size contentType fileID info remote m :
  Fs_Upload E fuel f size contentType fileID info remote m
  = (let '(o, m1, t1) :=
       pacer_Call (negotiate f size contentType fileID info) (set_res None m) in
     match o with
     | Ret (Some e) => (Ret (None, Some e), m1, t1)
     | Ret None =>
         match var_res m1 with
         | None => (Panic, m1, t1)
         | Some res =>
             let '(o2, m2, t2) :=
               Upload E fuel
                 (mkRx remote (Header_Get "Location" (resp_Header res)) contentType size)
                 (set_ret None m1) in
             (o2, m2, (t1 ++ t2)%list)
         end
     | Panic => (Panic, m1, t1)
     | OutOfFuel => (OutOfFuel, m1, t1)
     end).
Proof.
  unfold Fs_Upload. unfold bind at 1. unfold modify at 1. unfold bind at 1.
  destruct (pacer_Call (negotiate f size contentType fileID info) (set_res None m))
    as [[[[e|]| |] m1] t1]; try reflexivity.
  - unfold ret. simpl. rewrite app_nil_r. reflexivity.
  - unfold bind at 1. unfold gets at 1. destruct (var_res m1) as [res|]; simpl.
    + unfold bind at 1. simpl. unfold bind at 1. unfold modify at 1.
      destruct (Upload E fuel _ (set_ret None m1)) as [[o2 m2] t2]. reflexivity.
    + unfold bind, panic. simpl. rewrite app_nil_r. reflexivity.
Qed.

End Shapes.

(** ** The negotiation and what follows it *)

Section Negotiation.

Context (E : Env).

Lemma Header_Get_absent key h :
  (forall v, ~ In (key, v) h) -> Header_Get key h = "".
Proof.
  induction h as [|[k v] h IH]; intros Habs; simpl.
  - reflexivity.
  - destruct (String.eqb k key) eqn:Hk.
    + apply String.eqb_eq in Hk. subst k. exfalso. apply (Habs v). left. reflexivity.
    + apply IH. intros v' Hin. apply (Habs v'). right. exact Hin.
Qed.

(** What [makeRequest] builds. *)
Lemma makeRequest_chunk rx start reqSize req :
  makeRequest E rx start reqSize = Some req ->
  req_URL req = URI rx /\
  isChunkRequest req = true /\
  (reqSize <> 0 ->
   Header_Get "Content-Range" (req_Header req) = contentRange start reqSize (ContentLength rx)).
Proof.
  unfold makeRequest. destruct (validURL E (URI rx)); [|discriminate].
  intros H. inversion H; subst; clear H. split; [reflexivity|].
  destruct (reqSize =? 0) eqn:Hz; simpl.
  - split; [reflexivity|]. intros Hne. apply Z.eqb_eq in Hz. contradiction.
  - split; reflexivity.
Qed.

(** An upload of nothing: the loop has nothing to do. *)
Lemma Upload_empty fuel rx m :
  0 <= chunkSize E ->
  ContentLength rx <= 0 ->
  Upload E fuel rx m
  = (Ret (match rx_ret m with
          | Some file => (Some file, None)
          | None => (None, Some (ErrIncomplete 0))
          end), set_StatusCode 0 m, []).
Proof.
  intros HC Hlen. rewrite (Upload_unfold E fuel rx m HC).
  rewrite (uploadLoop_end E fuel rx 0 _ Hlen). simpl.
  destruct (rx_ret m); reflexivity.
Qed.

End Negotiation.

(** C3 (as the code has it).  For an upload of size 0 whose negotiation
    succeeded, the loop ends without a chunk request, nothing populates
    the result, and [Fs.Upload] fails with the incomplete-upload retry
    error with last status 0. *)
Theorem empty_upload_is_incomplete (E : Env) fuel f contentType fileID info remote m m1 t1 res :
  0 <= chunkSize E ->
  pacer_Call (negotiate f 0 contentType fileID info) (set_res None m) = (Ret None, m1, t1) ->
  var_res m1 = Some res ->
  Fs_Upload E fuel f 0 contentType fileID info remote m
  = (Ret (None, Some (ErrIncomplete 0)), set_StatusCode 0 (set_ret None m1), t1)
  /\ chunkRequests t1 = []
  /\ forall start reqSize, ~ In (EvDebug start reqSize) t1.
Proof.
  intros HC Hneg Hres. split.
  - rewrite Fs_Upload_unfold, Hneg, Hres.
    rewrite Upload_empty by (simpl; lia). simpl. rewrite app_nil_r. reflexivity.
  - apply ofNegotiation_no_chunk.
    exact (negotiation_sound E f 0 contentType fileID info _ _ _ _ _ Hneg).
Qed.

(** An empty file, a negotiation that is answered 200 with a Location. *)
Lemma empty_upload_is_incomplete_witness :
  fst (fst (Fs_Upload (Demo.env 9 4) 1 (mkFs false) 0 "text/plain" "" None "a.bin"
              (Demo.mem0 9 4 [Demo.reply 200 [("Location", "https://session/1")] ""])))
  = Ret (None, Some (ErrIncomplete 0)).
Proof.
  pose (r := pacer_Call (negotiate (mkFs false) 0 "text/plain" "" None)
               (set_res None
                  (Demo.mem0 9 4 [Demo.reply 200 [("Location", "https://session/1")] ""]))).
  destruct (empty_upload_is_incomplete (Demo.env 9 4) 1 (mkFs false) "text/plain" ""
              None "a.bin"
              (Demo.mem0 9 4 [Demo.reply 200 [("Location", "https://session/1")] ""])
              (snd (fst r)) (snd r)
              (mkResponse 200 [("Location", "https://session/1")] "")) as [H _].
  - simpl. lia.
  - reflexivity.
  - reflexivity.
  - rewrite H. reflexivity.
Defined.

(** C3 (counterexample).  An empty file whose negotiation succeeds: no
    chunk request is issued, the loop is not entered, and no result is
    populated; the call ends in the incomplete-upload failure. *)
Lemma empty_upload_counterexample :
  (let '(o, m, t) :=
     Fs_Upload (Demo.env 9 4) 1 (mkFs false) 0 "text/plain" "" None "a.bin"
       (Demo.mem0 9 4 [Demo.reply 200 [("Location", "https://session/1")] ""]) in
   (o, rx_ret m, chunkRequests t, observed t))
  = (Ret (None, Some (ErrIncomplete 0)), None, [], []).
Proof. vm_compute. reflexivity. Qed.

(** C2 (as the code has it).  [Fs.Upload] does not look at whether the
    negotiation answer has a Location header.  When the negotiation call
    returns an error, [Fs.Upload] returns it, no chunk request is issued
    and the loop is not entered.  When it returns none and the answer has
    no Location header, the session URI is the empty string, the loop is
    entered with it, and (for a positive size) a first chunk request is
    handed to the HTTP client for the empty URI. *)
Theorem negotiation_decides_entry (E : Env) fuel f size contentType fileID info remote
    m o1 m1 t1 :
  pacer_Call (negotiate f size contentType fileID info) (set_res None m) = (o1, m1, t1) ->
  (forall e, o1 = Ret (Some e) ->
     Fs_Upload E fuel f size contentType fileID info remote m = (Ret (None, Some e), m1, t1)
     /\ chunkRequests t1 = []
     /\ forall start reqSize, ~ In (EvDebug start reqSize) t1)
  /\
  (forall res, o1 = Ret None ->
     var_res m1 = Some res ->
     (forall v, ~ In ("Location", v) (resp_Header res)) ->
     validURL E "" = true -> 0 < size -> 0 < chunkSize E -> (0 < fuel)%nat ->
     exists req out t2,
       req_URL req = "" /\ isChunkRequest req = true /\
       snd (Fs_Upload E fuel f size contentType fileID info remote m)
       = (t1 ++ EvPacerBegin :: EvDebug 0 (Z.min (chunkSize E) size)
                :: EvDo req out :: t2)%list).
Proof.
  intros Hneg. split.
  - intros e ->. split.
    + rewrite Fs_Upload_unfold, Hneg. reflexivity.
    + apply ofNegotiation_no_chunk.
      exact (negotiation_sound E f size contentType fileID info _ _ _ _ _ Hneg).
  - intros res -> Hres Habs Hvalid Hsize Hchunk Hfuel.
    rewrite Fs_Upload_unfold, Hneg, Hres.
    rewrite (Header_Get_absent _ _ Habs).
    set (rx := mkRx remote "" contentType size).
    destruct (Upload E fuel rx (set_ret None m1)) as [[o2 m2] t2] eqn:HU. simpl.
    apply Upload_inv in HU. destruct HU as [(Hneg' & _) | (_ & o' & Hloop)]; [lia|].
    destruct fuel as [|fuel']; [lia|].
    rewrite (uploadLoop_step E fuel' rx 0) in Hloop by (simpl; lia).
    assert (Hlen : reqSizeAt E rx 0 = Z.min (chunkSize E) size).
    { rewrite reqSizeAt_min. simpl. rewrite Z.sub_0_r. reflexivity. }
    rewrite Hlen in Hloop.
    set (mc := set_StatusCode 0 (set_ret None m1)) in *.
    assert (Hp : exists op mp tp t3,
               pacer_Call (sendChunk rx 0 (Z.min (chunkSize E) size)) mc = (op, mp, tp)
               /\ t2 = (tp ++ t3)%list).
    { apply bind_inv in Hloop.
      destruct Hloop as [(a & ma & ta & tb & Hp & _ & ->) | [[Hp _] | [Hp _]]].
      - exists (Ret a), ma, ta, tb. auto.
      - exists Panic, m2, t2, []. rewrite app_nil_r. auto.
      - exists OutOfFuel, m2, t2, []. rewrite app_nil_r. auto. }
    destruct Hp as (op & mp & tp & t3 & Hp & ->).
    apply pacer_call_first in Hp. destruct Hp as (t4 & ->).
    destruct (sendChunk rx 0 (Z.min (chunkSize E) size) mc) as [[os ms] ts] eqn:HS.
    simpl.
    apply sendChunk_trace in HS.
    destruct HS as [(Hreq & _) | (req & out & Hreq & _ & Hts)].
    { unfold makeRequest in Hreq. simpl in Hreq. rewrite Hvalid in Hreq. discriminate. }
    destruct (makeRequest_chunk E rx 0 _ req Hreq) as (HURL & Hchunkreq & _).
    exists req, out.
    destruct Hts as [(_ & ->) | (code & err & _ & ->)].
    + exists (t4 ++ t3)%list. repeat split; auto.
    + exists (EvChunk code err :: t4 ++ t3)%list. repeat split; auto.
Qed.

(** A negotiation that is refused with 403: the error comes back and
    nothing else is sent.  A negotiation that is answered 200 without a
    Location header: the first chunk goes out for the empty URI. *)
Lemma negotiation_decides_entry_witness :
  fst (fst (Fs_Upload (Demo.env 9 4) 3 (mkFs false) 10 "text/plain" "" None "a.bin"
              (Demo.mem0 9 4 [Demo.reply 403 [] ""])))
  = Ret (None, Some (ErrHTTP 403))
  /\
  exists req out t2,
    req_URL req = "" /\ isChunkRequest req = true /\
    snd (Fs_Upload (Demo.env 1 4) 3 (mkFs false) 10 "text/plain" "" None "a.bin"
           (Demo.mem0 1 4 [Demo.reply 200 [] ""]))
    = (snd (pacer_Call (negotiate (mkFs false) 10 "text/plain" "" None)
              (set_res None (Demo.mem0 1 4 [Demo.reply 200 [] ""])))
         ++ EvPacerBegin :: EvDebug 0 (Z.min 4 10) :: EvDo req out :: t2)%list.
Proof.
  split.
  - pose (r := pacer_Call (negotiate (mkFs false) 10 "text/plain" "" None)
                 (set_res None (Demo.mem0 9 4 [Demo.reply 403 [] ""]))).
    destruct (negotiation_decides_entry (Demo.env 9 4) 3 (mkFs false) 10 "text/plain" ""
                None "a.bin" (Demo.mem0 9 4 [Demo.reply 403 [] ""])
                (fst (fst r)) (snd (fst r)) (snd r)) as [H _].
    + reflexivity.
    + destruct (H (ErrHTTP 403)) as [H1 _].
      * reflexivity.
      * rewrite H1. reflexivity.
  - pose (r := pacer_Call (negotiate (mkFs false) 10 "text/plain" "" None)
                 (set_res None (Demo.mem0 1 4 [Demo.reply 200 [] ""]))).
    destruct (negotiation_decides_entry (Demo.env 1 4) 3 (mkFs false) 10 "text/plain" ""
                None "a.bin" (Demo.mem0 1 4 [Demo.reply 200 [] ""])
                (fst (fst r)) (snd (fst r)) (snd r)) as [_ H].
    + reflexivity.
    + apply (H (mkResponse 200 [] "")).
      * reflexivity.
      * reflexivity.
      * intros v [].
      * reflexivity.
      * lia.
      * simpl. lia.
      * lia.
Defined.

(** C2 (counterexample).  The negotiation is answered 200 without a
    Location header, for a file of ten bytes and chunks of four; then the
    connection is refused.  The call does not stop after the negotiation:
    the loop is entered and the first chunk is handed to the HTTP client
    twice (one retry is allowed), for the empty session URI. *)
Lemma missing_Location_counterexample :
  (let '(o, m, t) :=
     Fs_Upload (Demo.env 1 4) 3 (mkFs false) 10 "text/plain" "" None "a.bin"
       (Demo.mem0 1 4 [Demo.reply 200 [] ""]) in
   (o,
    map (fun req => (req_URL req, Header_Get "Content-Range" (req_Header req)))
        (chunkRequests t),
    observed t))
  = (Ret (None, Some (ErrRetry (ErrTransport "connection refused"))),
     [("", "bytes 0-3/10"); ("", "bytes 0-3/10")],
     [599; 599]).
Proof. vm_compute. reflexivity. Qed.

(** ** Which calls go through the pacer *)

Section Paced.

Context (E : Env).

Lemma paced_closure t t' :
  Forall closureEvent t -> paced true (t ++ t') = paced true t'.
Proof.
  induction 1 as [|ev t Hev Hrest IH]; simpl.
  - reflexivity.
  - destruct ev; try contradiction; simpl; exact IH.
Qed.

Lemma sendChunk_closure rx start reqSize :
  Sound (always E closureEvent) (sendChunk rx start reqSize).
Proof.
  intros m o m' t H. unfold always. apply sendChunk_trace in H.
  destruct H as [(_ & _ & ->) | (req & out & _ & _ & [(_ & ->) | (code & err & _ & ->)])];
    repeat constructor.
Qed.

Lemma negotiate_closure f size contentType fileID info :
  Sound (always E closureEvent) (negotiate f size contentType fileID info).
Proof.
  apply (always_weaken E (negotiationRequest)); [|apply negotiate_sound].
  intros ev Hev. destruct ev; simpl in *; auto.
Qed.

(** A call of the pacer starts with its mark, and ends with one unless
    the closure did not come back. *)
Lemma pacer_call_paced (fn : M E (bool * option error)) :
  Sound (always E closureEvent) fn ->
  forall n m o m' t, pacer_call n fn m = (o, m', t) ->
  forall b t',
    paced b (t ++ t') = paced (match o with Ret _ => false | _ => true end) t'.
Proof.
  intros Hfn. induction n as [|n IH]; intros m o m' t H b t';
    apply pacer_call_inv in H;
    destruct H as [(err & t1 & H1 & -> & ->) | [(err & t1 & H1 & Hn & -> & ->)
      | [(err & m1 & t1 & n' & t2 & H1 & Hn & Hrec & ->)
        | (t1 & [[H1 ->]|[H1 ->]] & ->)]]];
    try discriminate;
    apply Hfn in H1; unfold always in H1; simpl.
  - rewrite <- app_assoc. rewrite (paced_closure _ _ H1). reflexivity.
  - rewrite <- app_assoc. rewrite (paced_closure _ _ H1). reflexivity.
  - apply (paced_closure _ _ H1).
  - apply (paced_closure _ _ H1).
  - rewrite <- app_assoc. rewrite (paced_closure _ _ H1). reflexivity.
  - injection Hn as <-.
    rewrite <- !app_assoc. rewrite (paced_closure _ _ H1). simpl.
    apply (IH _ _ _ _ Hrec).
  - apply (paced_closure _ _ H1).
  - apply (paced_closure _ _ H1).
Qed.

Lemma uploadLoop_paced rx fuel :
  forall start m o m' t,
    uploadLoop E fuel rx start m = (o, m', t) -> paced false t = true.
Proof.
  induction fuel as [|fuel IH]; intros start m o m' t H.
  - simpl in H. destruct (start <? ContentLength rx); inversion H; reflexivity.
  - destruct (Z.ltb_spec start (ContentLength rx)) as [Hlt|Hge].
    + rewrite (uploadLoop_step E fuel rx start Hlt) in H.
      apply bind_inv in H.
      destruct H as [(a & m1 & t1 & t2 & Hp & Hk & ->) | [[Hp _] | [Hp _]]].
      * rewrite (pacer_call_paced _ (sendChunk_closure rx start _) _ _ _ _ _ Hp).
        destruct a as [e|].
        -- inversion Hk; subst. reflexivity.
        -- exact (IH _ _ _ _ _ Hk).
      * rewrite <- (app_nil_r t).
        rewrite (pacer_call_paced _ (sendChunk_closure rx start _) _ _ _ _ _ Hp).
        reflexivity.
      * rewrite <- (app_nil_r t).
        rewrite (pacer_call_paced _ (sendChunk_closure rx start _) _ _ _ _ _ Hp).
        reflexivity.
    + rewrite (uploadLoop_end E (S fuel) rx start m Hge) in H. inversion H. reflexivity.
Qed.

Lemma Upload_paced rx fuel m o m' t :
  Upload E fuel rx m = (o, m', t) -> paced false t = true.
Proof.
  intros H. apply Upload_inv in H.
  destruct H as [(_ & _ & _ & ->) | (_ & o' & Hloop)]; [reflexivity|].
  exact (uploadLoop_paced rx fuel _ _ _ _ _ Hloop).
Qed.

End Paced.

(** C8 (as the code has it).  In every run of [Fs.Upload], every call of
    the HTTP client, the negotiation and each chunk send, is made by a
    closure that the pacer is running.  (The status probe is not: see the
    counterexample.) *)
Theorem upload_calls_are_paced (E : Env) fuel f size contentType fileID info remote m o m' t :
  Fs_Upload E fuel f size contentType fileID info remote m = (o, m', t) ->
  paced false t = true.
Proof.
  intros H. rewrite Fs_Upload_unfold in H.
  destruct (pacer_Call (negotiate f size contentType fileID info) (set_res None m))
    as [[o1 m1] t1] eqn:Hneg.
  pose proof (pacer_call_paced E _ (negotiate_closure E f size contentType fileID info)
                _ _ _ _ _ Hneg false) as Hp.
  destruct o1 as [[e|]| |].
  - inversion H; subst. rewrite <- (app_nil_r t). rewrite Hp. reflexivity.
  - destruct (var_res m1) as [res|].
    + destruct (Upload E fuel _ (set_ret None m1)) as [[o2 m2] t2] eqn:HU.
      inversion H; subst. rewrite Hp. exact (Upload_paced E _ _ _ _ _ _ HU).
    + inversion H; subst. rewrite <- (app_nil_r t). rewrite Hp. reflexivity.
  - inversion H; subst. rewrite <- (app_nil_r t). rewrite Hp. reflexivity.
  - inversion H; subst. rewrite <- (app_nil_r t). rewrite Hp. reflexivity.
Qed.

(** Scenario A from the negotiation on, with one connection reset on the
    way. *)
Lemma upload_calls_are_paced_witness :
  paced false
    (snd (Fs_Upload (Demo.env 9 4) 3 (mkFs false) 10 "text/plain" "" None "a.bin"
            (Demo.mem0 9 4 [Demo.reply 200 [("Location", "https://session/1")] "";
                            Demo.reply 308 [] ""; Demo.broken "reset";
                            Demo.reply 308 [] ""; Demo.reply 201 [] "f1"])))
  = true.
Proof.
  pose (r := Fs_Upload (Demo.env 9 4) 3 (mkFs false) 10 "text/plain" "" None "a.bin"
               (Demo.mem0 9 4 [Demo.reply 200 [("Location", "https://session/1")] "";
                               Demo.reply 308 [] ""; Demo.broken "reset";
                               Demo.reply 308 [] ""; Demo.reply 201 [] "f1"])).
  apply (upload_calls_are_paced (Demo.env 9 4) 3 (mkFs false) 10 "text/plain" "" None "a.bin"
           (Demo.mem0 9 4 [Demo.reply 200 [("Location", "https://session/1")] "";
                           Demo.reply 308 [] ""; Demo.broken "reset";
                           Demo.reply 308 [] ""; Demo.reply 201 [] "f1"])
           (fst (fst r)) (snd (fst r)) (snd r)).
  reflexivity.
Defined.

(** C8 (counterexample).  The status probe hands its request to the HTTP
    client itself: its one round trip is outside any call of the pacer. *)
Lemma probe_is_not_paced_counterexample :
  let t := snd (transferStatus (Demo.env 9 4) Demo.rx10
                  (Demo.mem0 9 4 [Demo.reply 308 [("Range", "0-3")] ""])) in
  List.length (requests t) = 1%nat /\ paced false t = false.
Proof. vm_compute. split; reflexivity. Qed.

(** ** The ranges that a run sends *)

Section Ranges.

Context (E : Env).

Lemma requests_app t1 t2 : requests (t1 ++ t2) = (requests t1 ++ requests t2)%list.
Proof. unfold requests. apply flat_map_app. Qed.

(** One call of the pacer for a chunk: the same request, once or more. *)
Lemma pacer_sendChunk_requests rx start reqSize n :
  forall (m : Mem E) err m' t,
    pacer_call n (sendChunk rx start reqSize) m = (Ret err, m', t) ->
    exists req k,
      makeRequest E rx start reqSize = Some req /\ requests t = repeat req (S k).
Proof.
  assert (Hone : forall (m : Mem E) b err m1 t1,
             sendChunk rx start reqSize m = (Ret (b, err), m1, t1) ->
             exists req, makeRequest E rx start reqSize = Some req /\ requests t1 = [req]).
  { intros m b err m1 t1 H. apply sendChunk_trace in H.
    destruct H as [(_ & H & _) | (req & out & Hreq & _ & [(H & _) | (code & e & _ & ->)])];
      try discriminate.
    exists req. split; [exact Hreq | reflexivity]. }
  induction n as [|n IH]; intros m err m' t H;
    apply pacer_call_inv in H;
    destruct H as [(e & t1 & H1 & _ & ->) | [(e & t1 & H1 & Hn & _ & ->)
      | [(e & m1 & t1 & n' & t2 & H1 & Hn & Hrec & ->)
        | (t1 & [[_ Ho]|[_ Ho]] & _)]]];
    try discriminate;
    destruct (Hone _ _ _ _ _ H1) as (req & Hreq & Hreqs).
  - exists req, O. split; [exact Hreq|].
    simpl. rewrite requests_app, Hreqs. reflexivity.
  - exists req, O. split; [exact Hreq|].
    simpl. rewrite requests_app, Hreqs. reflexivity.
  - exists req, O. split; [exact Hreq|].
    simpl. rewrite requests_app, Hreqs. reflexivity.
  - injection Hn as <-.
    destruct (IH _ _ _ _ Hrec) as (req' & k & Hreq' & Hk).
    rewrite Hreq in Hreq'. injection Hreq' as <-.
    exists req, (S k). split; [exact Hreq|].
    rewrite requests_app. simpl. rewrite requests_app, Hreqs, Hk. reflexivity.
Qed.

(** The chunks of a loop that runs to its end, with the number of times
    each was sent again. *)
Lemma uploadLoop_ranges rx fuel :
  0 < chunkSize E ->
  forall start m m' t,
    start <= ContentLength rx ->
    uploadLoop E fuel rx start m = (Ret None, m', t) ->
    exists sends : list (Z * Z * nat),
      contentRanges t
      = flat_map (fun c => repeat (contentRange (fst (fst c)) (snd (fst c))
                                     (ContentLength rx)) (S (snd c))) sends
      /\ contiguous start (ContentLength rx) (map fst sends)
      /\ Forall (fun c => snd (fst c)
                          = Z.min (chunkSize E) (ContentLength rx - fst (fst c))) sends.
Proof.
  intros HC. induction fuel as [|fuel IH]; intros start m m' t Hle H.
  - simpl in H. destruct (Z.ltb_spec start (ContentLength rx)) as [Hlt|Hge];
      [discriminate|].
    inversion H; subst. exists []. simpl. repeat split; [lia | constructor].
  - destruct (Z.ltb_spec start (ContentLength rx)) as [Hlt|Hge].
    + rewrite (uploadLoop_step E fuel rx start Hlt) in H.
      apply bind_inv in H.
      destruct H as [(a & m1 & t1 & t2 & Hp & Hk & ->) | [[_ Ho] | [_ Ho]]];
        try discriminate.
      destruct a as [e|]; [inversion Hk|].
      pose proof (reqSizeAt_min E rx start) as Hlen.
      destruct (pacer_sendChunk_requests rx start _ _ _ _ _ _ Hp) as (req & k & Hreq & Hreqs).
      destruct (makeRequest_chunk E rx start _ req Hreq) as (_ & _ & Hrange).
      destruct (IH (start + reqSizeAt E rx start) m1 m' t2) as (sends & Hs1 & Hs2 & Hs3);
        [lia | exact Hk |].
      exists ((start, reqSizeAt E rx start, k) :: sends).
      split; [|split].
      * unfold contentRanges in *. rewrite requests_app, map_app, Hreqs, Hs1.
        rewrite map_repeat, Hrange by lia. reflexivity.
      * simpl. repeat split; [lia | exact Hs2].
      * constructor; [exact Hlen | exact Hs3].
    + rewrite (uploadLoop_end E (S fuel) rx start m Hge) in H. inversion H; subst.
      exists []. simpl. repeat split; [lia | constructor].
Qed.

(** Contiguous intervals partition what they span: each offset lies in
    exactly one of them. *)
Lemma contiguous_hits l :
  forall from to,
    contiguous from to l ->
    from <= to /\
    forall x, hits x l = if (from <=? x) && (x <? to) then 1%nat else 0%nat.
Proof.
  induction l as [|[s len] l IH]; intros from to H; simpl in H.
  - subst to. split; [lia|]. intros x. unfold hits. simpl.
    destruct (Z.leb_spec from x), (Z.ltb_spec x from); simpl; try reflexivity; lia.
  - destruct H as (-> & Hlen & Hrest).
    destruct (IH _ _ Hrest) as [Hle Hhits]. split; [lia|].
    intros x. unfold hits in *. simpl.
    specialize (Hhits x).
    destruct (Z.leb_spec from x), (Z.ltb_spec x (from + len)), (Z.ltb_spec x to),
      (Z.leb_spec (from + len) x); simpl in *; try lia; rewrite Hhits; reflexivity.
Qed.

End Ranges.

(** C4.  In a successful run of [Upload], for a total size of at least 0
    and a chunk size above 0, the Content-Range values sent are those of a
    list of chunks [(start, len)], each sent once or more in a row (once
    plus its resends), where the chunks follow one another from 0 to the
    total size, each is as long as the smaller of the chunk size and what
    remains, and every offset below the total size lies in exactly one. *)
Theorem content_ranges_partition (E : Env) fuel rx m file m' t :
  0 <= ContentLength rx ->
  0 < chunkSize E ->
  Upload E fuel rx m = (Ret (Some file, None), m', t) ->
  exists sends : list (Z * Z * nat),
    contentRanges t
    = flat_map (fun c => repeat (contentRange (fst (fst c)) (snd (fst c))
                                   (ContentLength rx)) (S (snd c))) sends
    /\ contiguous 0 (ContentLength rx) (map fst sends)
    /\ Forall (fun c => snd (fst c)
                        = Z.min (chunkSize E) (ContentLength rx - fst (fst c))) sends
    /\ forall x, 0 <= x < ContentLength rx -> hits x (map fst sends) = 1%nat.
Proof.
  intros Hlen HC H.
  rewrite (Upload_unfold E fuel rx m) in H by lia.
  destruct (uploadLoop E fuel rx 0 (set_StatusCode 0 m)) as [[[[e|]| |] m1] t1] eqn:Hloop;
    try discriminate.
  destruct (rx_ret m1); [|discriminate]. inversion H; subst.
  destruct (uploadLoop_ranges E rx fuel HC 0 _ _ _ Hlen Hloop) as (sends & H1 & H2 & H3).
  exists sends. repeat split; auto.
  intros x Hx. destruct (contiguous_hits _ _ _ H2) as [_ Hhits].
  rewrite Hhits.
  destruct (Z.leb_spec 0 x), (Z.ltb_spec x (ContentLength rx)); simpl; try reflexivity; lia.
Qed.

(** Scenario A: ten bytes in chunks of four, answered 308, 308 and 201. *)
Lemma content_ranges_partition_witness :
  let t := snd (Upload (Demo.env 9 4) 3 Demo.rx10
                  (Demo.mem0 9 4 [Demo.reply 308 [] ""; Demo.reply 308 [] "";
                                  Demo.reply 201 [] "f1"])) in
  contentRanges t = ["bytes 0-3/10"; "bytes 4-7/10"; "bytes 8-9/10"]
  /\ exists sends : list (Z * Z * nat),
      contentRanges t
      = flat_map (fun c => repeat (contentRange (fst (fst c)) (snd (fst c)) 10)
                             (S (snd c))) sends
      /\ contiguous 0 10 (map fst sends)
      /\ Forall (fun c => snd (fst c) = Z.min 4 (10 - fst (fst c))) sends
      /\ forall x, 0 <= x < 10 -> hits x (map fst sends) = 1%nat.
Proof.
  intros t. split; [reflexivity|].
  pose (r := Upload (Demo.env 9 4) 3 Demo.rx10
               (Demo.mem0 9 4 [Demo.reply 308 [] ""; Demo.reply 308 [] "";
                               Demo.reply 201 [] "f1"])).
  apply (content_ranges_partition (Demo.env 9 4) 3 Demo.rx10
           (Demo.mem0 9 4 [Demo.reply 308 [] ""; Demo.reply 308 [] "";
                           Demo.reply 201 [] "f1"])
           "f1" (snd (fst r)) (snd r)).
  - simpl. lia.
  - simpl. lia.
  - reflexivity.
Defined.

(** ** Fuel

    The loop of the model stops for want of fuel only when the real loop
    would still be running: with a positive chunk size, as many units of
    fuel as there are bytes are enough, and more fuel changes nothing. *)

Section Fuel.

Context (E : Env).

Lemma sendChunk_comes_back rx start reqSize (m : Mem E) :
  fst (fst (sendChunk rx start reqSize m)) <> OutOfFuel.
Proof.
  destruct (sendChunk rx start reqSize m) as [[o m'] t] eqn:H. simpl.
  apply sendChunk_inv in H.
  destruct H as [(t1 & _ & -> & _) | (code & err & m1 & t1 & _ & -> & _)]; discriminate.
Qed.

Lemma pacer_sendChunk_comes_back rx start reqSize n :
  forall (m : Mem E), fst (fst (pacer_call n (sendChunk rx start reqSize) m)) <> OutOfFuel.
Proof.
  induction n as [|n IH]; intros m;
    destruct (pacer_call _ (sendChunk rx start reqSize) m) as [[o m'] t] eqn:H; simpl;
    apply pacer_call_inv in H;
    destruct H as [(e & t1 & H1 & -> & _) | [(e & t1 & H1 & Hn & -> & _)
      | [(e & m1 & t1 & n' & t2 & H1 & Hn & Hrec & _)
        | (t1 & [[H1 ->]|[H1 ->]] & _)]]];
    try discriminate.
  - pose proof (sendChunk_comes_back rx start reqSize m) as Hs.
    rewrite H1 in Hs. exfalso. apply Hs. reflexivity.
  - injection Hn as <-. specialize (IH m1). rewrite Hrec in IH. exact IH.
  - pose proof (sendChunk_comes_back rx start reqSize m) as Hs.
    rewrite H1 in Hs. exfalso. apply Hs. reflexivity.
Qed.

Lemma uploadLoop_enough_fuel rx :
  0 < chunkSize E ->
  forall fuel start m,
    (Z.to_nat (ContentLength rx - start) <= fuel)%nat ->
    fst (fst (uploadLoop E fuel rx start m)) <> OutOfFuel.
Proof.
  intros HC. induction fuel as [|fuel IH]; intros start m Hfuel.
  - rewrite uploadLoop_end by lia. discriminate.
  - destruct (Z.ltb_spec start (ContentLength rx)) as [Hlt|Hge].
    + rewrite (uploadLoop_step E fuel rx start Hlt).
      pose proof (pacer_sendChunk_comes_back rx start (reqSizeAt E rx start)
                    (pacer_retries E) m) as Hp.
      unfold bind, pacer_Call.
      destruct (pacer_call _ _ m) as [[[[e|]| |] m1] t1]; simpl in *;
        try discriminate; try contradiction.
      pose proof (reqSizeAt_min E rx start) as Hlen.
      specialize (IH (start + reqSizeAt E rx start) m1).
      destruct (uploadLoop E fuel rx (start + reqSizeAt E rx start) m1) as [[o2 m2] t2].
      simpl in *. apply IH. lia.
    + rewrite uploadLoop_end by lia. discriminate.
Qed.

Lemma uploadLoop_more_fuel rx fuel :
  forall start m o m' t,
    uploadLoop E fuel rx start m = (o, m', t) ->
    o <> OutOfFuel ->
    forall fuel', (fuel <= fuel')%nat -> uploadLoop E fuel' rx start m = (o, m', t).
Proof.
  induction fuel as [|fuel IH]; intros start m o m' t H Ho fuel' Hle.
  - simpl in H. destruct (Z.ltb_spec start (ContentLength rx)) as [Hlt|Hge].
    + inversion H; subst. contradiction Ho. reflexivity.
    + inversion H; subst. apply uploadLoop_end. exact Hge.
  - destruct fuel' as [|fuel']; [lia|].
    destruct (Z.ltb_spec start (ContentLength rx)) as [Hlt|Hge].
    + rewrite (uploadLoop_step E fuel rx start Hlt) in H.
      rewrite (uploadLoop_step E fuel' rx start Hlt).
      unfold bind in *.
      destruct (pacer_Call _ m) as [[[[e|]| |] m1] t1];
        [exact H | | exact H | exact H].
      destruct (uploadLoop E fuel rx (start + reqSizeAt E rx start) m1)
        as [[o2 m2] t2] eqn:Hrec.
      inversion H; subst.
      rewrite (IH _ _ _ _ _ Hrec Ho fuel') by lia. reflexivity.
    + rewrite uploadLoop_end in * by exact Hge. exact H.
Qed.

(** [Upload] returns or panics once the fuel covers the size. *)
Lemma Upload_enough_fuel rx fuel m :
  0 < chunkSize E ->
  (Z.to_nat (ContentLength rx) <= fuel)%nat ->
  fst (fst (Upload E fuel rx m)) <> OutOfFuel.
Proof.
  intros HC Hfuel. rewrite Upload_unfold by lia.
  pose proof (uploadLoop_enough_fuel rx HC fuel 0 (set_StatusCode 0 m)) as H.
  rewrite Z.sub_0_r in H. specialize (H Hfuel).
  destruct (uploadLoop E fuel rx 0 (set_StatusCode 0 m)) as [[[[e|]| |] m1] t1];
    simpl in *; try discriminate; try contradiction.
  destruct (rx_ret m1); discriminate.
Qed.

End Fuel.

(** ** How a run without a record ends *)

Section Ending.

Context (E : Env).

(** What the closure hands to the pacer: nothing after a 308, 200 or 201,
    else the error of [transferChunk] with the verdict of the retry
    predicate on it. *)
Lemma chunkVerdict_inv code err again e :
  chunkVerdict E code err = (again, e) ->
  (again = false /\ e = None)
  \/ (exists e0, err = Some e0 /\ e = Some e0 /\ retryable E e0 = again).
Proof.
  unfold chunkVerdict.
  destruct ((code =? statusResumeIncomplete) || (code =? StatusCreated) || (code =? StatusOK)).
  - destruct err as [e0|]; simpl; intros H; inversion H; left; split; reflexivity.
  - destruct err as [e0|]; simpl; intros H; inversion H; subst.
    + right. exists e0. repeat split.
    + left. split; reflexivity.
Qed.

(** A call of the closure that comes back: one round trip, and the code
    it reports goes with what the client gave back. *)
Lemma sendChunk_report rx start reqSize (m : Mem E) v m' t :
  sendChunk rx start reqSize m = (Ret v, m', t) ->
  exists req out code err,
    t = [EvDebug start reqSize; EvDo req out; EvChunk code err]
    /\ v = chunkVerdict E code err
    /\ var_StatusCode m' = code
    /\ codeFor out code.
Proof.
  intros H. apply sendChunk_inv in H.
  destruct H as [(t1 & _ & H & _) | (code & err & m1 & t1 & HT & Hv & -> & ->)];
    [discriminate|].
  injection Hv as ->.
  apply transferChunk_inv in HT.
  destruct HT as [(_ & HT & _) | (req & res & errD & c & _ & _ & -> & HT)]; [discriminate|].
  exists req, (res, errD), code, err.
  split; [reflexivity|]. split; [reflexivity|]. split; [reflexivity|].
  destruct HT as [(e & -> & HT & _) | [(_ & _ & HT & _) | [(r & -> & -> & H308 & HT & _)
    | [(r & e & -> & -> & _ & _ & HT & _)
      | (r & f & derr & -> & -> & _ & HCk & _ & _ & HT)]]]];
    try discriminate.
  - inversion HT; subst. destruct res; reflexivity.
  - inversion HT; subst. left. symmetry. exact H308.
  - inversion HT; subst. left. reflexivity.
  - destruct derr as [e|]; inversion HT; subst; [|left; reflexivity].
    right. split; [reflexivity|].
    unfold CheckResponse in HCk.
    destruct ((200 <=? StatusCode r) && (StatusCode r <=? 299)) eqn:Hb; [|discriminate].
    apply andb_true_iff in Hb. destruct Hb as [H1 H2].
    apply Z.leb_le in H1, H2. lia.
Qed.

Lemma lastAnswerFrom_app a t1 t2 :
  lastAnswerFrom a (t1 ++ t2) = lastAnswerFrom (lastAnswerFrom a t1) t2.
Proof. unfold lastAnswerFrom. apply fold_left_app. Qed.

(** The same for a call of the pacer that returns. *)
Lemma pacer_sendChunk_answer rx start reqSize n :
  forall (m : Mem E) r m' t,
    pacer_call n (sendChunk rx start reqSize) m = (Ret r, m', t) ->
    forall a, exists out,
      lastAnswerFrom a t = Some out /\ codeFor out (var_StatusCode m').
Proof.
  induction n as [|n IH]; intros m r m' t H a;
    apply pacer_call_inv in H;
    destruct H as [(e & t1 & H1 & _ & ->) | [(e & t1 & H1 & Hn & _ & ->)
      | [(e & m1 & t1 & n' & t2 & H1 & Hn & Hrec & ->)
        | (t1 & [[_ Ho]|[_ Ho]] & _)]]];
    try discriminate;
    try (apply sendChunk_report in H1;
         destruct H1 as (req & out & code & err & -> & _ & Hc & Hfor);
         exists out; split; [reflexivity | rewrite Hc; exact Hfor]).
  injection Hn as <-. rewrite lastAnswerFrom_app. exact (IH _ _ _ _ Hrec _).
Qed.

(** [StatusCode] goes with the last answer all along the loop. *)
Lemma uploadLoop_answer rx fuel :
  forall start m r m' t,
    uploadLoop E fuel rx start m = (Ret r, m', t) ->
    forall a,
      match a with
      | Some out => codeFor out (var_StatusCode m)
      | None => var_StatusCode m = 0
      end ->
      match lastAnswerFrom a t with
      | Some out => codeFor out (var_StatusCode m')
      | None => var_StatusCode m' = 0
      end.
Proof.
  induction fuel as [|fuel IH]; intros start m r m' t H a Ha.
  - simpl in H. destruct (start <? ContentLength rx); inversion H; subst. exact Ha.
  - destruct (Z.ltb_spec start (ContentLength rx)) as [Hlt|Hge].
    + rewrite (uploadLoop_step E fuel rx start Hlt) in H.
      apply bind_inv in H.
      destruct H as [(e & m1 & t1 & t2 & Hp & Hk & ->) | [[_ Ho] | [_ Ho]]];
        try discriminate.
      destruct (pacer_sendChunk_answer _ _ _ _ _ _ _ _ Hp a) as (out & Hout & Hfor).
      rewrite lastAnswerFrom_app, Hout.
      destruct e as [e|].
      * inversion Hk; subst. simpl. exact Hfor.
      * exact (IH _ _ _ _ _ Hk (Some out) Hfor).
    + rewrite (uploadLoop_end E (S fuel) rx start m Hge) in H. inversion H; subst. exact Ha.
Qed.

(** A call of the pacer that returns an error. *)
Lemma pacer_sendChunk_error rx start reqSize n :
  forall (m : Mem E) e m' t,
    pacer_call n (sendChunk rx start reqSize) m = (Ret (Some e), m', t) ->
    endsWithChunkError E e t.
Proof.
  assert (Hlast : forall (m : Mem E) again err m' t1,
             sendChunk rx start reqSize m = (Ret (again, err), m', t1) ->
             err <> None ->
             exists t0 code e0,
               (EvPacerBegin :: t1 ++ [EvPacerEnd again])%list
               = (t0 ++ [EvChunk code (Some e0); EvPacerEnd again])%list
               /\ err = Some e0 /\ retryable E e0 = again).
  { intros m again err m' t1 H1 Herr.
    apply sendChunk_report in H1.
    destruct H1 as (req & out & code & err' & -> & Hv & _ & _).
    symmetry in Hv. apply chunkVerdict_inv in Hv.
    destruct Hv as [[_ Hv] | (e0 & -> & -> & Hre)]; [contradiction|].
    exists [EvPacerBegin; EvDebug start reqSize; EvDo req out], code, e0.
    repeat split. exact Hre. }
  induction n as [|n IH]; intros m e m' t H;
    apply pacer_call_inv in H;
    destruct H as [(e1 & t1 & H1 & He & ->) | [(e1 & t1 & H1 & Hn & He & ->)
      | [(e1 & m1 & t1 & n' & t2 & H1 & Hn & Hrec & ->)
        | (t1 & [[_ Ho]|[_ Ho]] & _)]]];
    try discriminate.
  - injection He as <-.
    destruct (Hlast _ _ _ _ _ H1 ltac:(discriminate)) as (t0 & code & e0 & -> & He & Hre).
    injection He as ->. exists t0, code, e0, false. repeat split. exact Hre.
  - injection He as He.
    assert (Herr : e1 <> None).
    { apply sendChunk_report in H1.
      destruct H1 as (req & out & code & err' & _ & Hv & _ & _).
      symmetry in Hv. apply chunkVerdict_inv in Hv.
      destruct Hv as [[Hv _] | (e0 & _ & -> & _)]; discriminate. }
    destruct (Hlast _ _ _ _ _ H1 Herr) as (t0 & code & e0 & -> & -> & Hre).
    exists t0, code, e0, true. repeat split; auto.
  - injection He as <-.
    destruct (Hlast _ _ _ _ _ H1 ltac:(discriminate)) as (t0 & code & e0 & -> & He & Hre).
    injection He as ->. exists t0, code, e0, false. repeat split. exact Hre.
  - injection Hn as <-.
    destruct (IH _ _ _ _ Hrec) as (t0 & code & e0 & again & -> & Hre & He).
    exists ((EvPacerBegin :: t1 ++ [EvPacerEnd true]) ++ t0)%list, code, e0, again.
    rewrite <- app_assoc. repeat split; assumption.
Qed.

(** A run of the loop that returns an error: the error of the last call
    of the pacer. *)
Lemma uploadLoop_error rx fuel :
  forall start m e m' t,
    uploadLoop E fuel rx start m = (Ret (Some e), m', t) ->
    endsWithChunkError E e t.
Proof.
  induction fuel as [|fuel IH]; intros start m e m' t H.
  - simpl in H. destruct (start <? ContentLength rx); inversion H.
  - destruct (Z.ltb_spec start (ContentLength rx)) as [Hlt|Hge].
    + rewrite (uploadLoop_step E fuel rx start Hlt) in H.
      apply bind_inv in H.
      destruct H as [(a & m1 & t1 & t2 & Hp & Hk & ->) | [[_ Ho] | [_ Ho]]];
        try discriminate.
      destruct a as [e1|].
      * inversion Hk; subst. rewrite app_nil_r.
        exact (pacer_sendChunk_error _ _ _ _ _ _ _ _ Hp).
      * destruct (IH _ _ _ _ _ Hk) as (t0 & code & e0 & again & -> & Hre & He).
        exists (t1 ++ t0)%list, code, e0, again.
        rewrite <- app_assoc. repeat split; assumption.
    + rewrite (uploadLoop_end E (S fuel) rx start m Hge) in H. inversion H.
Qed.

(** The code that [Upload] finds in [StatusCode] after its loop. *)
Lemma uploadLoop_codeAfter rx fuel m r m' t :
  uploadLoop E fuel rx 0 (set_StatusCode 0 m) = (Ret r, m', t) ->
  codeAfter t (lastStatus t).
Proof.
  intros H.
  pose proof (uploadLoop_StatusCode E _ _ _ _ _ _ _ H) as Hlast.
  simpl in Hlast. fold (lastStatus t) in Hlast. rewrite <- Hlast.
  exact (uploadLoop_answer _ _ _ _ _ _ _ H None eq_refl).
Qed.

End Ending.

(** C6.  A run of [Upload] that returns without a record returns one of
    two errors.  Either a chunk's call of the pacer returned an error and
    [Upload] returned it from inside the loop: the trace then ends with
    the report of an error and the pacer's closing mark, and the error
    returned is the reported one when the retry predicate wants no retry,
    and what the pacer makes of it when the retry budget is spent.  Or
    the loop ran to its end with [rx.ret] still nil, and the error is the
    incomplete-upload retry error; the code in it is the one reported
    last, which is 0 when no request was sent, and else goes with what
    the client gave back for the last request: the status of the answer,
    599 for a failed round trip, 598 for a 2xx answer that did not
    decode. *)
Theorem Upload_without_record (E : Env) fuel rx m err m' t :
  0 <= chunkSize E ->
  Upload E fuel rx m = (Ret (None, err), m', t) ->
  (exists e,
      err = Some e
      /\ uploadLoop E fuel rx 0 (set_StatusCode 0 m) = (Ret (Some e), m', t)
      /\ endsWithChunkError E e t)
  \/ (uploadLoop E fuel rx 0 (set_StatusCode 0 m) = (Ret None, m', t)
      /\ rx_ret m' = None
      /\ err = Some (ErrIncomplete (lastStatus t))
      /\ codeAfter t (lastStatus t)).
Proof.
  intros HC H. rewrite (Upload_unfold E fuel rx m HC) in H.
  destruct (uploadLoop E fuel rx 0 (set_StatusCode 0 m)) as [[[[e|]| |] m1] t1] eqn:Hloop;
    try discriminate.
  - inversion H; subst. left. exists e. split; [reflexivity|]. split; [reflexivity|].
    exact (uploadLoop_error E _ _ _ _ _ _ _ Hloop).
  - destruct (rx_ret m1) eqn:Hret; [discriminate|].
    inversion H; subst. right. split; [reflexivity|]. split; [exact Hret|].
    split.
    + rewrite (uploadLoop_StatusCode E _ _ _ _ _ _ _ Hloop). reflexivity.
    + exact (uploadLoop_codeAfter E _ _ _ _ _ _ Hloop).
Qed.

(** Ten bytes in chunks of four, each chunk answered 308 and never a 200
    or 201: the loop runs to its end and the upload is incomplete, last
    status 308. *)
Lemma Upload_without_record_witness :
  let r := Upload (Demo.env 9 4) 3 Demo.rx10
             (Demo.mem0 9 4 [Demo.reply 308 [] ""; Demo.reply 308 [] "";
                             Demo.reply 308 [] ""]) in
  let err := Some (ErrIncomplete 308) in
  fst (fst r) = Ret (None, err)
  /\ ((exists e,
          err = Some e
          /\ uploadLoop (Demo.env 9 4) 3 Demo.rx10 0
               (set_StatusCode 0
                  (Demo.mem0 9 4 [Demo.reply 308 [] ""; Demo.reply 308 [] "";
                                  Demo.reply 308 [] ""]))
             = (Ret (Some e), snd (fst r), snd r)
          /\ endsWithChunkError (Demo.env 9 4) e (snd r))
      \/ (uploadLoop (Demo.env 9 4) 3 Demo.rx10 0
            (set_StatusCode 0
               (Demo.mem0 9 4 [Demo.reply 308 [] ""; Demo.reply 308 [] "";
                               Demo.reply 308 [] ""]))
          = (Ret None, snd (fst r), snd r)
          /\ rx_ret (snd (fst r)) = None
          /\ err = Some (ErrIncomplete (lastStatus (snd r)))
          /\ codeAfter (snd r) (lastStatus (snd r)))).
Proof.
  intros r err. split; [reflexivity|].
  apply (Upload_without_record (Demo.env 9 4) 3 Demo.rx10
           (Demo.mem0 9 4 [Demo.reply 308 [] ""; Demo.reply 308 [] "";
                           Demo.reply 308 [] ""])
           err (snd (fst r)) (snd r)).
  - simpl. lia.
  - reflexivity.
Defined.

(** Two runs that end without a record and not with the incomplete-upload
    error.  The second chunk is refused with 403: the run ends there with
    that error.  The server answers 503 until the budget of one retry is
    spent: the run ends with what the pacer makes of the error, the
    cursor still at 0. *)
Lemma chunk_error_is_not_incomplete_counterexample :
  (let r := Upload (Demo.env 9 4) 3 Demo.rx10
              (Demo.mem0 9 4 [Demo.reply 308 [] ""; Demo.reply 403 [] ""]) in
   fst (fst r) = Ret (None, Some (ErrHTTP 403))
   /\ rx_ret (snd (fst r)) = None
   /\ observed (snd r) = [308; 403]
   /\ forall code, fst (fst r) <> Ret (None, Some (ErrIncomplete code)))
  /\
  (let r := Upload (Demo.env 1 4) 3 Demo.rx10
              (Demo.mem0 1 4 [Demo.reply 503 [] ""; Demo.reply 503 [] ""]) in
   fst (fst r) = Ret (None, Some (ErrRetry (ErrHTTP 503)))
   /\ rx_ret (snd (fst r)) = None
   /\ starts (snd r) = [0; 0]
   /\ forall code, fst (fst r) <> Ret (None, Some (ErrIncomplete code))).
Proof.
  split; cbv zeta; (split; [reflexivity|]); (split; [reflexivity|]);
    (split; [reflexivity|]); intros code H; vm_compute in H; discriminate H.
Qed.

(** ** A pacer that swallows no error

    When the pacer never returns nil for an error once its budget is
    spent, the loop goes on to the next chunk only after an attempt that
    reported no error, so the code it observed last is 308 or a 2xx
    code: the sentinels 598 and 599 then end the run with the error of
    the chunk. *)

Section Strict.

Context (E : Env).

Hypothesis keeps_errors : forall e, pacer_giveUp E (Some e) <> None.

Lemma sendChunk_settled rx start reqSize (m : Mem E) m' t :
  sendChunk rx start reqSize m = (Ret (false, None), m', t) ->
  accepted (var_StatusCode m').
Proof.
  intros H. apply sendChunk_inv in H.
  destruct H as [(t1 & _ & H & _) | (code & err & m1 & t1 & HT & Hv & -> & _)];
    [discriminate|].
  simpl. injection Hv as Hv.
  unfold chunkVerdict, statusResumeIncomplete, StatusCreated, StatusOK in Hv.
  destruct (Z.eqb_spec code 308) as [->|N1]; [left; reflexivity|].
  destruct (Z.eqb_spec code 201) as [->|N2]; [right; lia|].
  destruct (Z.eqb_spec code 200) as [->|N3]; [right; lia|].
  destruct err as [e|]; simpl in Hv; [discriminate|].
  apply transferChunk_inv in HT.
  destruct HT as [(_ & HT & _) | (req & res & err & c & _ & _ & _ & HT)]; [discriminate|].
  destruct HT as [(e & _ & HT & _) | [(_ & _ & HT & _) | [(r & _ & _ & _ & HT & _)
    | [(r & e & _ & _ & _ & _ & HT & _) | (r & f & derr & _ & _ & _ & HCk & _ & _ & HT)]]]];
    try discriminate.
  - inversion HT; subst. contradiction N1. reflexivity.
  - destruct derr; [discriminate|]. inversion HT; subst.
    right. unfold CheckResponse in HCk.
    destruct ((200 <=? StatusCode r) && (StatusCode r <=? 299)) eqn:Hb; [|discriminate].
    apply andb_true_iff in Hb. destruct Hb as [H1 H2].
    apply Z.leb_le in H1, H2. lia.
Qed.

(** A closure that asks for a retry has an error to show. *)
Lemma sendChunk_again rx start reqSize (m : Mem E) err m' t :
  sendChunk rx start reqSize m = (Ret (true, err), m', t) ->
  exists e, err = Some e.
Proof.
  intros H. apply sendChunk_report in H.
  destruct H as (req & out & code & err' & _ & Hv & _).
  symmetry in Hv. apply chunkVerdict_inv in Hv.
  destruct Hv as [[Hv _] | (e0 & _ & -> & _)]; [discriminate|].
  exists e0. reflexivity.
Qed.

Lemma pacer_sendChunk_settled rx start reqSize n :
  forall (m : Mem E) m' t,
    pacer_call n (sendChunk rx start reqSize) m = (Ret None, m', t) ->
    accepted (var_StatusCode m').
Proof.
  induction n as [|n IH]; intros m m' t H;
    apply pacer_call_inv in H;
    destruct H as [(e & t1 & H1 & He & _) | [(e & t1 & H1 & Hn & He & _)
      | [(e & m1 & t1 & n' & t2 & H1 & Hn & Hrec & _)
        | (t1 & [[_ Ho]|[_ Ho]] & _)]]];
    try discriminate.
  - injection He as <-. exact (sendChunk_settled _ _ _ _ _ _ H1).
  - injection He as He. symmetry in He.
    destruct (sendChunk_again _ _ _ _ _ _ _ H1) as (e0 & ->).
    contradiction (keeps_errors e0).
  - injection He as <-. exact (sendChunk_settled _ _ _ _ _ _ H1).
  - injection Hn as <-. exact (IH _ _ _ Hrec).
Qed.

Lemma uploadLoop_settled rx fuel :
  forall start m m' t,
    uploadLoop E fuel rx start m = (Ret None, m', t) ->
    var_StatusCode m' = var_StatusCode m \/ accepted (var_StatusCode m').
Proof.
  induction fuel as [|fuel IH]; intros start m m' t H.
  - simpl in H. destruct (start <? ContentLength rx); inversion H. left. reflexivity.
  - destruct (Z.ltb_spec start (ContentLength rx)) as [Hlt|Hge].
    + rewrite (uploadLoop_step E fuel rx start Hlt) in H.
      apply bind_inv in H.
      destruct H as [(a & m1 & t1 & t2 & Hp & Hk & _) | [[_ Ho] | [_ Ho]]];
        try discriminate.
      destruct a as [e|]; [inversion Hk|].
      apply pacer_sendChunk_settled in Hp.
      destruct (IH _ _ _ _ Hk) as [Heq | Hacc]; right; [rewrite Heq|]; assumption.
    + rewrite (uploadLoop_end E (S fuel) rx start m Hge) in H. inversion H. left. reflexivity.
Qed.

(** The codes that the incomplete-upload failure can carry then. *)
Lemma incomplete_code_settled rx fuel m m' t :
  uploadLoop E fuel rx 0 (set_StatusCode 0 m) = (Ret None, m', t) ->
  lastStatus t = 0 \/ accepted (lastStatus t).
Proof.
  intros H. pose proof (uploadLoop_StatusCode E _ _ _ _ _ _ _ H) as Hlast.
  simpl in Hlast. fold (lastStatus t) in Hlast. rewrite <- Hlast.
  exact (uploadLoop_settled _ _ _ _ _ _ H).
Qed.

End Strict.

(** C10.  (1) When the round trip fails, [transferChunk] reports 599 with
    the transport error.  (2) When a 2xx answer has a body that does not
    decode, it reports 598 with the decode error.  (3) With a pacer that
    swallows no error, a run of [Upload] that returns with a sentinel as
    the code reported last returns from inside the loop with the error of
    that chunk, not with the incomplete-upload error.  (4) With such a
    pacer the code in the incomplete-upload error is 0, 308 or a 2xx
    code, never a sentinel. *)
Theorem sentinels_end_the_run (E : Env) (rx : resumableUpload) :
  (forall start reqSize m req r e c,
      makeRequest E rx start reqSize = Some req ->
      client_Do E req (conn m) = ((r, Some e), c) ->
      transferChunk E rx start reqSize m
      = (Ret (599, Some e), set_conn c m, [EvDo req (r, Some e)]))
  /\
  (forall start reqSize m req res c f e,
      makeRequest E rx start reqSize = Some req ->
      client_Do E req (conn m) = ((Some res, None), c) ->
      200 <= StatusCode res <= 299 ->
      json_Decode E (resp_Body res) (rx_ret m) = (f, Some e) ->
      transferChunk E rx start reqSize m
      = (Ret (598, Some e), set_ret f (set_conn c m), [EvDo req (Some res, None)]))
  /\
  (forall fuel m file err m' t,
      (forall e, pacer_giveUp E (Some e) <> None) ->
      0 <= chunkSize E ->
      Upload E fuel rx m = (Ret (file, err), m', t) ->
      lastStatus t = 598 \/ lastStatus t = 599 ->
      file = None
      /\ exists e,
          err = Some e
          /\ uploadLoop E fuel rx 0 (set_StatusCode 0 m) = (Ret (Some e), m', t)
          /\ endsWithChunkError E e t)
  /\
  (forall fuel m m' t,
      (forall e, pacer_giveUp E (Some e) <> None) ->
      0 <= chunkSize E ->
      uploadLoop E fuel rx 0 (set_StatusCode 0 m) = (Ret None, m', t) ->
      rx_ret m' = None ->
      Upload E fuel rx m = (Ret (None, Some (ErrIncomplete (lastStatus t))), m', t)
      /\ (lastStatus t = 0 \/ accepted (lastStatus t))
      /\ lastStatus t <> 598 /\ lastStatus t <> 599).
Proof.
  split; [|split; [|split]].
  - intros. apply transferChunk_transport_error; assumption.
  - intros. eapply transferChunk_decode_error; eassumption.
  - intros fuel m file err m' t Hkeep HC H Hlast.
    rewrite (Upload_unfold E fuel rx m HC) in H.
    destruct (uploadLoop E fuel rx 0 (set_StatusCode 0 m)) as [[[[e|]| |] m1] t1] eqn:Hloop;
      try discriminate.
    + inversion H; subst. split; [reflexivity|]. exists e.
      split; [reflexivity|]. split; [reflexivity|].
      exact (uploadLoop_error E _ _ _ _ _ _ _ Hloop).
    + exfalso.
      assert (Ht : t1 = t) by (destruct (rx_ret m1); inversion H; reflexivity).
      subst t1.
      destruct (incomplete_code_settled E Hkeep _ _ _ _ _ Hloop) as [H0 | [H308 | H2xx]];
        lia.
  - intros fuel m m' t Hkeep HC Hloop Hret.
    split.
    + rewrite (Upload_unfold E fuel rx m HC), Hloop, Hret.
      rewrite (uploadLoop_StatusCode E _ _ _ _ _ _ _ Hloop). reflexivity.
    + pose proof (incomplete_code_settled E Hkeep _ _ _ _ _ Hloop) as Hset.
      split; [exact Hset|].
      destruct Hset as [H0 | [H308 | H2xx]]; lia.
Qed.

(** The sentinels at work: a connection reset; a 200 with an empty body;
    a one-chunk upload whose connection stays down, which ends with what
    the pacer makes of the transport error; and ten bytes in chunks of
    four that are answered 308 throughout. *)
Lemma sentinels_end_the_run_witness :
  fst (fst (transferChunk (Demo.env 9 4) Demo.rx10 0 4 (Demo.mem0 9 4 [Demo.broken "reset"])))
  = Ret (599, Some (ErrTransport "reset"))
  /\
  fst (fst (transferChunk (Demo.env 9 4) Demo.rx10 8 2 (Demo.mem0 9 4 [Demo.reply 200 [] ""])))
  = Ret (598, Some (ErrJSON "EOF"))
  /\
  (let r := Upload (Demo.env 1 4) 1 (mkRx "a.bin" "https://session/1" "text/plain" 4)
              (Demo.mem0 1 4 [Demo.broken "reset"; Demo.broken "reset"]) in
   lastStatus (snd r) = 599
   /\ fst (fst r) = Ret (None, Some (ErrRetry (ErrTransport "reset")))
   /\ exists e,
       Some (ErrRetry (ErrTransport "reset")) = Some e
       /\ uploadLoop (Demo.env 1 4) 1 (mkRx "a.bin" "https://session/1" "text/plain" 4) 0
            (set_StatusCode 0 (Demo.mem0 1 4 [Demo.broken "reset"; Demo.broken "reset"]))
          = (Ret (Some e), snd (fst r), snd r)
       /\ endsWithChunkError (Demo.env 1 4) e (snd r))
  /\
  (let r := Upload (Demo.env 9 4) 3 Demo.rx10
              (Demo.mem0 9 4 [Demo.reply 308 [] ""; Demo.reply 308 [] "";
                              Demo.reply 308 [] ""]) in
   r = (Ret (None, Some (ErrIncomplete (lastStatus (snd r)))), snd (fst r), snd r)
   /\ lastStatus (snd r) = 308).
Proof.
  split; [|split; [|split]].
  - erewrite (proj1 (sentinels_end_the_run (Demo.env 9 4) Demo.rx10));
      reflexivity.
  - erewrite (proj1 (proj2 (sentinels_end_the_run (Demo.env 9 4) Demo.rx10)));
      [reflexivity | reflexivity | reflexivity | simpl; lia | reflexivity].
  - intros r. split; [reflexivity|]. split; [reflexivity|].
    apply (proj1 (proj2 (proj2 (sentinels_end_the_run (Demo.env 1 4)
                                  (mkRx "a.bin" "https://session/1" "text/plain" 4))))
             1%nat (Demo.mem0 1 4 [Demo.broken "reset"; Demo.broken "reset"])
             None (Some (ErrRetry (ErrTransport "reset"))) (snd (fst r)) (snd r)).
    + intros e. discriminate.
    + simpl. lia.
    + reflexivity.
    + right. reflexivity.
  - intros r. split; [|reflexivity].
    apply (proj2 (proj2 (proj2 (sentinels_end_the_run (Demo.env 9 4) Demo.rx10)))
             3%nat (Demo.mem0 9 4 [Demo.reply 308 [] ""; Demo.reply 308 [] "";
                                   Demo.reply 308 [] ""])
             (snd (fst r)) (snd r)).
    + intros e. discriminate.
    + simpl. lia.
    + reflexivity.
    + reflexivity.
Defined.

(** The sentinels are reported, and the error is not the incomplete-upload
    error with the sentinel in it.  A connection that stays down, two
    retries: three reports of 599, and the run ends with what the pacer
    makes of the transport error.  A 200 with an empty body: a report of
    598, and the run ends with the error of the decoder. *)
Lemma sentinel_is_not_the_last_error_counterexample :
  (let r := Upload (Demo.env 2 4) 3 Demo.rx10 (Demo.mem0 2 4 []) in
   observed (snd r) = [599; 599; 599]
   /\ rx_ret (snd (fst r)) = None
   /\ fst (fst r) = Ret (None, Some (ErrRetry (ErrTransport "connection refused")))
   /\ forall code, fst (fst r) <> Ret (None, Some (ErrIncomplete code)))
  /\
  (let r := Upload (Demo.env 2 4) 3 Demo.rx10
              (Demo.mem0 2 4 [Demo.reply 308 [] ""; Demo.reply 308 [] "";
                              Demo.reply 200 [] ""]) in
   observed (snd r) = [308; 308; 598]
   /\ rx_ret (snd (fst r)) = None
   /\ fst (fst r) = Ret (None, Some (ErrJSON "EOF"))
   /\ forall code, fst (fst r) <> Ret (None, Some (ErrIncomplete code))).
Proof.
  split; cbv zeta; (split; [reflexivity|]); (split; [reflexivity|]);
    (split; [reflexivity|]); intros code H; vm_compute in H; discriminate H.
Qed.

(** * Further properties of the code *)

(** ** The Range header: printing and parsing decimals *)

Ltac digit_value :=
  match goal with
  | |- context [Z.of_nat (nat_of_ascii ?c)] =>
      let v := eval vm_compute in (Z.of_nat (nat_of_ascii c)) in
      change (Z.of_nat (nat_of_ascii c)) with v
  end.

Lemma digitsValue_of_uint_acc d :
  forall acc,
    digitsValue (Z.pos acc) (NilEmpty.string_of_uint d) = Z.pos (Pos.of_uint_acc d acc).
Proof.
  induction d; intros acc;
    cbn [NilEmpty.string_of_uint digitsValue Pos.of_uint_acc];
    [reflexivity | rewrite <- IHd; f_equal; digit_value; lia ..].
Qed.

Lemma digitsValue_of_uint d :
  digitsValue 0 (NilEmpty.string_of_uint d) = Z.of_N (Pos.of_uint d).
Proof.
  induction d;
    cbn [NilEmpty.string_of_uint digitsValue Pos.of_uint Z.of_N];
    [reflexivity | exact IHd
     | rewrite <- digitsValue_of_uint_acc; f_equal; digit_value; lia ..].
Qed.

Lemma allDigits_of_uint d : allDigits (NilEmpty.string_of_uint d) = true.
Proof. induction d; simpl; auto. Qed.

Lemma sprintv_nonneg n :
  0 <= n ->
  exists d, d <> Decimal.Nil /\ sprintv n = NilEmpty.string_of_uint d /\
            Z.of_N (Pos.of_uint d) = n.
Proof.
  intros Hn. unfold sprintv. destruct n as [|p|p]; [| |lia].
  - exists (Decimal.D0 Decimal.Nil). repeat split. discriminate.
  - exists (Pos.to_uint p). split; [apply DecimalPos.Unsigned.to_uint_nonnil|].
    split.
    + simpl. unfold NilZero.string_of_uint.
      pose proof (DecimalPos.Unsigned.to_uint_nonnil p) as Hnn.
      destruct (Pos.to_uint p); try reflexivity. contradiction Hnn. reflexivity.
    + rewrite DecimalPos.Unsigned.of_to. reflexivity.
Qed.

Lemma range_header_round_trip_aux (n : Z) :
  0 <= n ->
  rangeRE_submatch ("0-" ++ sprintv n) = Some (sprintv n)
  /\ parseInt64 (sprintv n) = (if n <=? maxInt64 then Some n else None).
Proof.
  intros Hn. destruct (sprintv_nonneg n Hn) as (d & Hnil & Hs & Hv).
  rewrite Hs. split.
  - simpl. pose proof (allDigits_of_uint d) as Hd.
    destruct (NilEmpty.string_of_uint d) eqn:Hstr.
    + destruct d; simpl in Hstr; try discriminate. contradiction Hnil. reflexivity.
    + rewrite Hd. reflexivity.
  - unfold parseInt64. rewrite digitsValue_of_uint, Hv. reflexivity.
Qed.

(** X11.  The decimal form of a byte index reads back through [rangeRE]
    and [strconv.ParseInt]: for every index [n] from 0 to the largest
    [int64], the header [0-n] is matched, its group is the decimal form
    of [n], and the group parses to [n]; an index above the largest
    [int64] is matched and then refused by the parser. *)
Theorem range_header_round_trip (n : Z) :
  0 <= n ->
  rangeRE_submatch ("0-" ++ sprintv n) = Some (sprintv n)
  /\ parseInt64 (sprintv n) = (if n <=? maxInt64 then Some n else None).
Proof. exact (range_header_round_trip_aux n). Qed.

Lemma range_header_round_trip_witness :
  rangeRE_submatch ("0-" ++ sprintv 1048575) = Some "1048575"
  /\ parseInt64 (sprintv 1048575) = Some 1048575.
Proof.
  exact (range_header_round_trip 1048575 ltac:(lia)).
Defined.

(** ** More on the status probe *)

Lemma isDigit_bounds c : isDigit c = true -> 48 <= Z.of_nat (nat_of_ascii c) <= 57.
Proof.
  unfold isDigit. cbv zeta. intros H. apply andb_true_iff in H. destruct H as [H1 H2].
  apply Nat.leb_le in H1. apply Nat.leb_le in H2. lia.
Qed.

Lemma digitsValue_nonneg s :
  allDigits s = true -> forall acc, 0 <= acc -> 0 <= digitsValue acc s.
Proof.
  induction s as [|c s IH]; cbn [digitsValue allDigits]; intros Hd acc Hacc.
  - exact Hacc.
  - apply andb_true_iff in Hd. destruct Hd as [Hc Hs].
    apply IH; [exact Hs|]. pose proof (isDigit_bounds c Hc). lia.
Qed.

Lemma rangeRE_submatch_Some s m1 :
  rangeRE_submatch s = Some m1 ->
  s = "0-" ++ m1 /\ m1 <> "" /\ allDigits m1 = true.
Proof.
  unfold rangeRE_submatch.
  destruct s as [|a s]; [discriminate|].
  destruct (Ascii.ascii_dec a "0") as [->|Ha].
  2:{ destruct a as [[] [] [] [] [] [] [] []]; try discriminate.
      contradiction Ha. reflexivity. }
  destruct s as [|b s]; [discriminate|].
  destruct (Ascii.ascii_dec b "-") as [->|Hb].
  2:{ destruct b as [[] [] [] [] [] [] [] []]; try discriminate.
      contradiction Hb. reflexivity. }
  destruct s as [|c s]; [discriminate|].
  destruct (allDigits (String c s)) eqn:Hd; [|discriminate].
  intros H. injection H as <-. repeat split; [discriminate | exact Hd].
Qed.

(** X8.  When the probe returns no error, what it returns is valid: it
    made one zero-length request with [Content-Range: bytes */total], it
    left [rx.ret] alone, and either the answer was 200 or 201 and the
    result is the total size, or the answer was 308 with a Range header
    of the form [0-] followed by digits and the result is the number the
    digits spell, which fits an [int64]. *)
Theorem transferStatus_success (E : Env) rx m start m' t :
  transferStatus E rx m = (Ret (start, None), m', t) ->
  exists req res,
    makeRequest E rx 0 0 = Some req
    /\ req_ContentLength req = 0
    /\ Header_Get "Content-Range" (req_Header req)
       = "bytes */" ++ sprintv (ContentLength rx)
    /\ t = [EvDo req (Some res, None)]
    /\ rx_ret m' = rx_ret m
    /\ (((StatusCode res = 200 \/ StatusCode res = 201) /\ start = ContentLength rx)
        \/ (StatusCode res = 308 /\
            exists digits,
              Header_Get "Range" (resp_Header res) = "0-" ++ digits
              /\ digits <> "" /\ allDigits digits = true
              /\ start = digitsValue 0 digits /\ 0 <= start <= maxInt64)).
Proof.
  unfold transferStatus.
  destruct (makeRequest E rx 0 0) as [req|] eqn:Hreq.
  2:{ unfold bind, deref, panic. simpl. discriminate. }
  assert (Hshape : req_ContentLength req = 0 /\
                   Header_Get "Content-Range" (req_Header req)
                   = "bytes */" ++ sprintv (ContentLength rx)).
  { unfold makeRequest in Hreq. destruct (validURL E (URI rx)); [|discriminate].
    injection Hreq as <-. split; reflexivity. }
  destruct Hshape as [Hlen Hrange].
  unfold bind, deref, ret, client_call. simpl.
  destruct (client_Do E req (conn m)) as [[res err] c] eqn:HDo.
  destruct err as [e|]; [discriminate|].
  destruct res as [res|]; [|discriminate].
  unfold StatusCreated, StatusOK, statusResumeIncomplete.
  destruct (Z.eqb_spec (StatusCode res) 201) as [H201|N201]; simpl.
  { intros H. inversion H; subst. exists req, res. repeat split; auto. }
  destruct (Z.eqb_spec (StatusCode res) 200) as [H200|N200]; simpl.
  { intros H. inversion H; subst. exists req, res. repeat split; auto. }
  destruct (Z.eqb_spec (StatusCode res) 308) as [H308|N308]; simpl.
  2:{ destruct (CheckResponse res); discriminate. }
  destruct (rangeRE_submatch (Header_Get "Range" (resp_Header res))) as [m1|] eqn:Hm;
    [|discriminate].
  unfold parseInt64.
  destruct (Z.leb_spec (digitsValue 0 m1) maxInt64) as [Hfit|Hbig]; [|discriminate].
  intros H. inversion H; subst.
  destruct (rangeRE_submatch_Some _ _ Hm) as (HR & Hne & Hd).
  exists req, res. repeat split; auto.
  right. split; [exact H308|]. exists m1. repeat split; auto.
  apply digitsValue_nonneg; [exact Hd | lia].
Qed.

Lemma transferStatus_success_witness :
  exists req res,
    makeRequest (Demo.env 9 4) Demo.rx10 0 0 = Some req
    /\ req_ContentLength req = 0
    /\ Header_Get "Content-Range" (req_Header req) = "bytes */10"
    /\ [EvDo (mkRequest "POST" "https://session/1"
                [("Content-Range", "bytes */10"); ("Content-Type", "text/plain")] 0)
             (Demo.reply 308 [("Range", "0-7")] "")]
       = [EvDo req (Some res, None)]
    /\ (None : option string) = None
    /\ (((StatusCode res = 200 \/ StatusCode res = 201) /\ 7 = 10)
        \/ (StatusCode res = 308 /\
            exists digits,
              Header_Get "Range" (resp_Header res) = "0-" ++ digits
              /\ digits <> "" /\ allDigits digits = true
              /\ 7 = digitsValue 0 digits /\ 0 <= 7 <= maxInt64)).
Proof.
  exact (transferStatus_success (Demo.env 9 4) Demo.rx10
           (Demo.mem0 9 4 [Demo.reply 308 [("Range", "0-7")] ""])
           7 (Demo.mem0 9 4 [])
           [EvDo (mkRequest "POST" "https://session/1"
                    [("Content-Range", "bytes */10"); ("Content-Type", "text/plain")] 0)
                 (Demo.reply 308 [("Range", "0-7")] "")]
           eq_refl).
Defined.

(** X9.  A 308 answer to the probe whose Range header cannot be used is
    an error that carries the header, never an offset: so it is when the
    header is absent or empty, when it has the form [bytes=...], and when
    the index it gives is above the largest [int64]. *)
Theorem transferStatus_unusable_range (E : Env) rx m req res c :
  makeRequest E rx 0 0 = Some req ->
  client_Do E req (conn m) = ((Some res, None), c) ->
  StatusCode res = 308 ->
  (Header_Get "Range" (resp_Header res) = ""
   \/ (exists rest, Header_Get "Range" (resp_Header res) = "bytes=" ++ rest)
   \/ (exists n, maxInt64 < n /\ Header_Get "Range" (resp_Header res) = "0-" ++ sprintv n)) ->
  transferStatus E rx m
  = (Ret (0, Some (ErrParseRange (Header_Get "Range" (resp_Header res)))),
     set_conn c m, [EvDo req (Some res, None)]).
Proof.
  intros Hreq HDo H308 Hbad.
  unfold transferStatus. rewrite Hreq.
  unfold bind, deref, ret, client_call. simpl. rewrite HDo. simpl.
  unfold StatusCreated, StatusOK, statusResumeIncomplete. rewrite H308. simpl.
  destruct Hbad as [-> | [(rest & ->) | (n & Hn & ->)]]; try reflexivity.
  assert (H0 : 0 <= n) by (unfold maxInt64 in Hn; lia).
  destruct (range_header_round_trip_aux n H0) as [-> ->].
  destruct (Z.leb_spec n maxInt64); [lia | reflexivity].
Qed.

Lemma transferStatus_unusable_range_witness :
  fst (fst (transferStatus (Demo.env 9 4) Demo.rx10
              (Demo.mem0 9 4 [Demo.reply 308 [("Range", "bytes=0-7")] ""])))
  = Ret (0, Some (ErrParseRange "bytes=0-7"))
  /\
  fst (fst (transferStatus (Demo.env 9 4) Demo.rx10 (Demo.mem0 9 4 [Demo.reply 308 [] ""])))
  = Ret (0, Some (ErrParseRange "")).
Proof.
  pose (req := mkRequest "POST" "https://session/1"
                 [("Content-Range", "bytes */10"); ("Content-Type", "text/plain")] 0).
  split.
  - rewrite (transferStatus_unusable_range (Demo.env 9 4) Demo.rx10
               (Demo.mem0 9 4 [Demo.reply 308 [("Range", "bytes=0-7")] ""])
               req (mkResponse 308 [("Range", "bytes=0-7")] "") []).
    + reflexivity.
    + reflexivity.
    + reflexivity.
    + reflexivity.
    + right. left. exists "0-7". reflexivity.
  - rewrite (transferStatus_unusable_range (Demo.env 9 4) Demo.rx10
               (Demo.mem0 9 4 [Demo.reply 308 [] ""])
               req (mkResponse 308 [] "") []).
    + reflexivity.
    + reflexivity.
    + reflexivity.
    + reflexivity.
    + left. reflexivity.
Defined.

(** X10.  Every other way the probe's round trip can end is an error with
    offset 0: a failed round trip gives the transport error; a status that
    is not 2xx and not 308 gives the HTTP error of that status; a 2xx
    status other than 200 and 201 gives "unexpected http return code". *)
Theorem transferStatus_failures (E : Env) rx m req :
  makeRequest E rx 0 0 = Some req ->
  (forall r e c,
      client_Do E req (conn m) = ((r, Some e), c) ->
      transferStatus E rx m = (Ret (0, Some e), set_conn c m, [EvDo req (r, Some e)]))
  /\
  (forall res c,
      client_Do E req (conn m) = ((Some res, None), c) ->
      StatusCode res <> 200 -> StatusCode res <> 201 -> StatusCode res <> 308 ->
      transferStatus E rx m
      = (Ret (0, Some (if (200 <=? StatusCode res) && (StatusCode res <=? 299)
                       then ErrUnexpectedCode (StatusCode res)
                       else ErrHTTP (StatusCode res))),
         set_conn c m, [EvDo req (Some res, None)])).
Proof.
  intros Hreq. split.
  - intros r e c HDo. unfold transferStatus. rewrite Hreq.
    unfold bind, deref, ret, client_call. simpl. rewrite HDo. reflexivity.
  - intros res c HDo N200 N201 N308. unfold transferStatus. rewrite Hreq.
    unfold bind, deref, ret, client_call. simpl. rewrite HDo. simpl.
    unfold StatusCreated, StatusOK, statusResumeIncomplete.
    apply Z.eqb_neq in N200, N201, N308. rewrite N200, N201, N308. simpl.
    unfold CheckResponse.
    destruct ((200 <=? StatusCode res) && (StatusCode res <=? 299)); reflexivity.
Qed.

Lemma transferStatus_failures_witness :
  fst (fst (transferStatus (Demo.env 9 4) Demo.rx10 (Demo.mem0 9 4 [Demo.broken "reset"])))
  = Ret (0, Some (ErrTransport "reset"))
  /\
  fst (fst (transferStatus (Demo.env 9 4) Demo.rx10 (Demo.mem0 9 4 [Demo.reply 404 [] ""])))
  = Ret (0, Some (ErrHTTP 404))
  /\
  fst (fst (transferStatus (Demo.env 9 4) Demo.rx10 (Demo.mem0 9 4 [Demo.reply 204 [] ""])))
  = Ret (0, Some (ErrUnexpectedCode 204)).
Proof.
  pose (req := mkRequest "POST" "https://session/1"
                 [("Content-Range", "bytes */10"); ("Content-Type", "text/plain")] 0).
  split; [|split].
  - rewrite (proj1 (transferStatus_failures (Demo.env 9 4) Demo.rx10
                      (Demo.mem0 9 4 [Demo.broken "reset"]) req eq_refl)
               None (ErrTransport "reset") [] eq_refl).
    reflexivity.
  - rewrite (proj2 (transferStatus_failures (Demo.env 9 4) Demo.rx10
                      (Demo.mem0 9 4 [Demo.reply 404 [] ""]) req eq_refl)
               (mkResponse 404 [] "") [] eq_refl); [reflexivity | | | ];
      simpl; lia.
  - rewrite (proj2 (transferStatus_failures (Demo.env 9 4) Demo.rx10
                      (Demo.mem0 9 4 [Demo.reply 204 [] ""]) req eq_refl)
               (mkResponse 204 [] "") [] eq_refl); [reflexivity | | | ];
      simpl; lia.
Defined.

(** ** More on one chunk *)

(** A 2xx answer whose body decodes: its code, no error, and [rx.ret] as
    the decoder leaves it. *)
Lemma transferChunk_decoded (E : Env) rx start reqSize m req res c f :
  makeRequest E rx start reqSize = Some req ->
  client_Do E req (conn m) = ((Some res, None), c) ->
  200 <= StatusCode res <= 299 ->
  json_Decode E (resp_Body res) (rx_ret m) = (f, None) ->
  transferChunk E rx start reqSize m
  = (Ret (StatusCode res, None), set_ret f (set_conn c m), [EvDo req (Some res, None)]).
Proof.
  intros Hreq HDo H2xx HDec. unfold transferChunk. rewrite Hreq.
  unfold bind, deref, ret, client_call. simpl. rewrite HDo. simpl.
  unfold statusResumeIncomplete.
  destruct (StatusCode res =? 308) eqn:H308; [apply Z.eqb_eq in H308; lia|].
  unfold CheckResponse.
  replace ((200 <=? StatusCode res) && (StatusCode res <=? 299)) with true
    by (symmetry; apply andb_true_iff; split; apply Z.leb_le; lia).
  unfold decode_ret. simpl. rewrite HDec. reflexivity.
Qed.

Lemma CheckResponse_None res : CheckResponse res = None -> 200 <= StatusCode res <= 299.
Proof.
  unfold CheckResponse.
  destruct ((200 <=? StatusCode res) && (StatusCode res <=? 299)) eqn:Hb; [|discriminate].
  intros _. apply andb_true_iff in Hb. destruct Hb as [H1 H2].
  apply Z.leb_le in H1, H2. lia.
Qed.

Lemma CheckResponse_Some res e :
  CheckResponse res = Some e ->
  e = ErrHTTP (StatusCode res) /\ ~ 200 <= StatusCode res <= 299.
Proof.
  unfold CheckResponse.
  destruct ((200 <=? StatusCode res) && (StatusCode res <=? 299)) eqn:Hb; [discriminate|].
  intros H. injection H as <-. split; [reflexivity|].
  apply andb_false_iff in Hb. destruct Hb as [Hb|Hb]; apply Z.leb_gt in Hb; lia.
Qed.

(** X7.  What [transferChunk] reports says what happened on the wire.  It
    reports no error only for an answer whose status is 308 or 2xx, and
    then reports that status.  With an error it reports either 599 and
    the error of the round trip, or the answer's own status (which is
    then neither 308 nor 2xx) and the HTTP error of that status, or 598
    and the decoder's error on a 2xx answer. *)
Theorem transferChunk_report (E : Env) rx start reqSize m code err m' t :
  transferChunk E rx start reqSize m = (Ret (code, err), m', t) ->
  exists req res errDo,
    makeRequest E rx start reqSize = Some req
    /\ t = [EvDo req (res, errDo)]
    /\ match err with
       | None =>
           exists r, res = Some r /\ errDo = None /\ code = StatusCode r /\ accepted code
       | Some e =>
           (errDo = Some e /\ code = 599)
           \/ exists r, res = Some r /\ errDo = None /\
                ((code = StatusCode r /\ ~ accepted code /\ e = ErrHTTP code)
                 \/ (code = 598 /\ 200 <= StatusCode r <= 299 /\
                     snd (json_Decode E (resp_Body r) (rx_ret m)) = Some e))
       end.
Proof.
  intros H. apply transferChunk_inv in H.
  destruct H as [(_ & H & _) | (req & res & errDo & c & Hreq & _ & -> & H)]; [discriminate|].
  exists req, res, errDo. split; [exact Hreq|]. split; [reflexivity|].
  destruct H as [(e & -> & H & _) | [(_ & _ & H & _) | [(r & -> & -> & H308 & H & _)
    | [(r & e & -> & -> & Hne & HCk & H & _)
      | (r & f & derr & -> & -> & Hne & HCk & HDec & _ & H)]]]].
  - inversion H; subst. left. auto.
  - discriminate.
  - inversion H; subst. exists r. unfold accepted. repeat split; auto.
  - inversion H; subst. destruct (CheckResponse_Some r e HCk) as [-> Hnot].
    right. exists r. repeat split; auto. left. repeat split; auto.
    unfold accepted. lia.
  - pose proof (CheckResponse_None r HCk) as H2xx.
    destruct derr as [e|]; inversion H; subst.
    + right. exists r. repeat split; auto. right. rewrite HDec. repeat split; auto; lia.
    + exists r. unfold accepted. repeat split; auto.
Qed.

Lemma transferChunk_report_witness :
  exists req res errDo,
    makeRequest (Demo.env 9 4) Demo.rx10 4 4 = Some req
    /\ [EvDo (mkRequest "POST" "https://session/1"
                [("Content-Range", "bytes 4-7/10"); ("Content-Type", "text/plain")] 4)
             (Demo.reply 503 [] "")]
       = [EvDo req (res, errDo)]
    /\ ((errDo = Some (ErrHTTP 503) /\ 503 = 599)
        \/ exists r, res = Some r /\ errDo = None /\
             ((503 = StatusCode r /\ ~ accepted 503 /\ ErrHTTP 503 = ErrHTTP 503)
              \/ (503 = 598 /\ 200 <= StatusCode r <= 299 /\
                  snd (Demo.Decode (resp_Body r) None) = Some (ErrHTTP 503)))).
Proof.
  exact (transferChunk_report (Demo.env 9 4) Demo.rx10 4 4
           (Demo.mem0 9 4 [Demo.reply 503 [] ""]) 503 (Some (ErrHTTP 503))
           (Demo.mem0 9 4 [])
           [EvDo (mkRequest "POST" "https://session/1"
                    [("Content-Range", "bytes 4-7/10"); ("Content-Type", "text/plain")] 4)
                 (Demo.reply 503 [] "")]
           eq_refl).
Defined.

(** ** More on the loop *)

(** X4.  An error of a chunk that the retry predicate does not want
    retried ends the loop at once: after this one attempt the loop
    returns that error, the cursor has not moved and nothing more is
    sent. *)
Theorem chunk_error_aborts (E : Env) rx start fuel m code e m1 t1 :
  start < ContentLength rx ->
  transferChunk E rx start (reqSizeAt E rx start) m = (Ret (code, Some e), m1, t1) ->
  retryable E e = false ->
  uploadLoop E (S fuel) rx start m
  = (Ret (Some e), set_StatusCode code m1,
     (EvPacerBegin :: EvDebug start (reqSizeAt E rx start) :: t1
        ++ [EvChunk code (Some e); EvPacerEnd false])%list).
Proof.
  intros Hlt HT Hno.
  destruct (transferChunk_error_code rx start _ m code e m1 t1 HT) as (N1 & N2 & N3).
  apply sendChunk_reported in HT.
  assert (HV : chunkVerdict E code (Some e) = (false, Some e)).
  { unfold chunkVerdict, shouldRetry. rewrite Hno.
    unfold statusResumeIncomplete, StatusCreated, StatusOK.
    apply Z.eqb_neq in N1, N2, N3. rewrite N1, N2, N3. reflexivity. }
  rewrite HV in HT.
  rewrite (uploadLoop_step E fuel rx start Hlt). unfold pacer_Call.
  erewrite bind_Ret by (apply pacer_call_done; exact HT).
  unfold ret. simpl. rewrite app_nil_r, <- app_assoc. reflexivity.
Qed.

(** The second chunk of three is refused with 403. *)
Lemma chunk_error_aborts_witness :
  uploadLoop (Demo.env 9 4) 2 Demo.rx10 4
    (Demo.mem0 9 4 [Demo.reply 403 [] ""; Demo.reply 201 [] "f1"])
  = (Ret (Some (ErrHTTP 403)),
     mkMem (Demo.env 9 4) [Demo.reply 201 [] "f1"] None 403 None,
     [EvPacerBegin; EvDebug 4 4;
      EvDo (mkRequest "POST" "https://session/1"
              [("Content-Range", "bytes 4-7/10"); ("Content-Type", "text/plain")] 4)
           (Demo.reply 403 [] "");
      EvChunk 403 (Some (ErrHTTP 403)); EvPacerEnd false]).
Proof.
  exact (chunk_error_aborts (Demo.env 9 4) Demo.rx10 4 1
           (Demo.mem0 9 4 [Demo.reply 403 [] ""; Demo.reply 201 [] "f1"])
           403 (ErrHTTP 403)
           (Demo.mem0 9 4 [Demo.reply 201 [] "f1"])
           [EvDo (mkRequest "POST" "https://session/1"
                    [("Content-Range", "bytes 4-7/10"); ("Content-Type", "text/plain")] 4)
                 (Demo.reply 403 [] "")]
           eq_refl eq_refl eq_refl).
Defined.

(** X5.  A 2xx answer whose body decodes does not stop the loop: like a
    308 it makes the loop go on at [start + reqSize], with [rx.ret] set
    to what the decoder gave; so a 200 or 201 that comes before the last
    chunk is followed by the chunks that remain. *)
Theorem success_answer_goes_on (E : Env) rx start fuel m req res c f :
  start < ContentLength rx ->
  makeRequest E rx start (reqSizeAt E rx start) = Some req ->
  client_Do E req (conn m) = ((Some res, None), c) ->
  200 <= StatusCode res <= 299 ->
  json_Decode E (resp_Body res) (rx_ret m) = (f, None) ->
  uploadLoop E (S fuel) rx start m
  = (let '(o, m', t) :=
       uploadLoop E fuel rx (start + reqSizeAt E rx start)
         (set_StatusCode (StatusCode res) (set_ret f (set_conn c m))) in
     (o, m',
      [EvPacerBegin; EvDebug start (reqSizeAt E rx start);
       EvDo req (Some res, None); EvChunk (StatusCode res) None; EvPacerEnd false] ++ t)%list).
Proof.
  intros Hlt Hreq HDo H2xx HDec.
  rewrite (uploadLoop_step E fuel rx start Hlt).
  pose proof (transferChunk_decoded E rx start _ m req res c f Hreq HDo H2xx HDec) as HT.
  apply sendChunk_reported in HT.
  assert (HV : chunkVerdict E (StatusCode res) None = (false, None)).
  { unfold chunkVerdict. simpl.
    destruct ((StatusCode res =? statusResumeIncomplete)
              || (StatusCode res =? StatusCreated) || (StatusCode res =? StatusOK));
      reflexivity. }
  rewrite HV in HT. unfold pacer_Call.
  erewrite bind_Ret by (apply pacer_call_done; exact HT).
  reflexivity.
Qed.

(** The first of three chunks is answered 201 with the record; the two
    others are sent all the same. *)
Lemma success_answer_goes_on_witness :
  (let '(o, m, t) :=
     uploadLoop (Demo.env 9 4) 3 Demo.rx10 0
       (Demo.mem0 9 4 [Demo.reply 201 [] "f1"; Demo.reply 308 [] ""; Demo.reply 308 [] ""]) in
   (o, rx_ret m, contentRanges t, observed t))
  = (Ret None, Some "f1", ["bytes 0-3/10"; "bytes 4-7/10"; "bytes 8-9/10"], [201; 308; 308]).
Proof.
  rewrite (success_answer_goes_on (Demo.env 9 4) Demo.rx10 0 2
             (Demo.mem0 9 4 [Demo.reply 201 [] "f1"; Demo.reply 308 [] "";
                             Demo.reply 308 [] ""])
             (mkRequest "POST" "https://session/1"
                [("Content-Range", "bytes 0-3/10"); ("Content-Type", "text/plain")] 4)
             (mkResponse 201 [] "f1") [Demo.reply 308 [] ""; Demo.reply 308 [] ""]
             (Some "f1")).
  - reflexivity.
  - reflexivity.
  - reflexivity.
  - reflexivity.
  - simpl. lia.
  - reflexivity.
Defined.

(** ** The cursor and the requests of the loop *)

Section Cursor.

Context (E : Env).

Lemma starts_app t1 t2 : starts (t1 ++ t2) = (starts t1 ++ starts t2)%list.
Proof. unfold starts. apply flat_map_app. Qed.

Lemma requests_In req t : In req (requests t) -> exists out, In (EvDo req out) t.
Proof.
  induction t as [|ev t IH]; simpl; [intros []|].
  intros H. apply in_app_or in H. destruct H as [H|H].
  - destruct ev; simpl in H; try contradiction.
    destruct H as [<-|[]]. eexists. left. reflexivity.
  - destruct (IH H) as (out & Hin). exists out. right. exact Hin.
Qed.

Lemma makeRequest_shape rx start reqSize req :
  makeRequest E rx start reqSize = Some req ->
  req_Method req = "POST" /\ req_URL req = URI rx /\ req_ContentLength req = reqSize /\
  Header_Get "Content-Type" (req_Header req) = MediaType rx.
Proof.
  unfold makeRequest. destruct (validURL E (URI rx)); [|discriminate].
  intros H. injection H as <-. simpl.
  destruct (reqSize =? 0); repeat split; reflexivity.
Qed.

Lemma sendChunk_chunkStep rx start reqSize :
  Sound (always E (chunkStep E rx start reqSize)) (sendChunk rx start reqSize).
Proof.
  intros m o m' t H. unfold always. apply sendChunk_trace in H.
  destruct H as [(_ & _ & ->) | (req & out & Hreq & _ & [(_ & ->) | (code & err & _ & ->)])];
    repeat constructor; simpl; auto.
Qed.

Lemma pacer_sendChunk_chunkStep rx start reqSize n :
  Sound (always E (chunkStep E rx start reqSize)) (pacer_call n (sendChunk rx start reqSize)).
Proof.
  apply Sound_pacer_call.
  - apply always_comp.
  - intros m. unfold always. repeat constructor.
  - intros m again. unfold always. repeat constructor.
  - apply sendChunk_chunkStep.
Qed.

Lemma chunkAt_here rx start :
  0 < chunkSize E -> start mod chunkSize E = 0 -> 0 <= start < ContentLength rx ->
  chunkAt E rx start (reqSizeAt E rx start).
Proof.
  intros HC Hmod Hs. unfold chunkAt. rewrite reqSizeAt_min. auto.
Qed.

Lemma chunkStep_ofChunk rx start len ev :
  chunkAt E rx start len -> chunkStep E rx start len ev -> ofChunk E rx ev.
Proof.
  intros Hat. destruct ev; simpl; auto.
  - intros [-> ->]. exact Hat.
  - intros Hreq. exists start, len. auto.
Qed.

(** Where the cursor is after a chunk: on the next multiple of the chunk
    size, or at the end. *)
Lemma next_start rx start :
  0 < chunkSize E -> start mod chunkSize E = 0 -> 0 <= start < ContentLength rx ->
  let next := start + reqSizeAt E rx start in
  start < next <= ContentLength rx /\
  (next < ContentLength rx -> next mod chunkSize E = 0).
Proof.
  intros HC Hmod Hs next. subst next. rewrite reqSizeAt_min. split; [lia|].
  intros Hlt. replace (Z.min (chunkSize E) (ContentLength rx - start)) with (chunkSize E) by lia.
  replace (start + chunkSize E) with (start + 1 * chunkSize E) by lia.
  rewrite Z.mod_add by lia. exact Hmod.
Qed.

Lemma uploadLoop_ofChunk rx fuel :
  0 < chunkSize E ->
  forall start m o m' t,
    start mod chunkSize E = 0 -> 0 <= start ->
    uploadLoop E fuel rx start m = (o, m', t) ->
    Forall (ofChunk E rx) t.
Proof.
  intros HC. induction fuel as [|fuel IH]; intros start m o m' t Hmod Hpos H.
  - simpl in H. destruct (start <? ContentLength rx); inversion H; constructor.
  - destruct (Z.ltb_spec start (ContentLength rx)) as [Hlt|Hge].
    2:{ rewrite (uploadLoop_end E (S fuel) rx start m Hge) in H. inversion H. constructor. }
    rewrite (uploadLoop_step E fuel rx start Hlt) in H.
    assert (Hhere : forall op mp tp,
               pacer_Call (sendChunk rx start (reqSizeAt E rx start)) m = (op, mp, tp) ->
               Forall (ofChunk E rx) tp).
    { intros op mp tp Hp.
      apply (pacer_sendChunk_chunkStep rx start _ (pacer_retries E)) in Hp.
      unfold always in Hp. eapply Forall_impl; [|exact Hp].
      intros ev. apply chunkStep_ofChunk. apply chunkAt_here; auto. }
    apply bind_inv in H.
    destruct H as [(a & m1 & t1 & t2 & Hp & Hk & ->) | [[Hp _] | [Hp _]]];
      try (eapply Hhere; exact Hp).
    apply Forall_app. split; [eapply Hhere; exact Hp|].
    destruct a as [e|]; [inversion Hk; constructor|].
    destruct (next_start rx start HC Hmod (conj Hpos Hlt)) as [Hnext Hmodnext].
    destruct (Z.ltb_spec (start + reqSizeAt E rx start) (ContentLength rx)) as [Hlt'|Hge'].
    + apply (IH _ _ _ _ _ (Hmodnext Hlt') ltac:(lia) Hk).
    + rewrite (uploadLoop_end E fuel rx _ m1 Hge') in Hk. inversion Hk. constructor.
Qed.

Lemma Forall_const_sorted s l :
  Forall (fun x => x = s) l -> Sorted.StronglySorted Z.le l.
Proof.
  induction 1 as [|x l Hx Hl IH]; constructor; [exact IH|].
  subst x. eapply Forall_impl; [|exact Hl]. intros y ->. lia.
Qed.

Lemma sorted_app l1 l2 :
  Sorted.StronglySorted Z.le l1 -> Sorted.StronglySorted Z.le l2 ->
  (forall x y, In x l1 -> In y l2 -> x <= y) ->
  Sorted.StronglySorted Z.le (l1 ++ l2).
Proof.
  induction 1 as [|x l1 Hs IH Hx]; intros H2 Hle; simpl; [exact H2|].
  constructor.
  - apply IH; [exact H2|]. intros a b Ha Hb. apply Hle; [right; exact Ha | exact Hb].
  - apply Forall_app. split; [exact Hx|].
    apply Forall_forall. intros y Hy. apply Hle; [left; reflexivity | exact Hy].
Qed.

Lemma chunkStep_starts rx start len t :
  Forall (chunkStep E rx start len) t -> Forall (fun x => x = start) (starts t).
Proof.
  induction 1 as [|ev t Hev Ht IH]; simpl; [constructor|].
  destruct ev; simpl in *; auto. destruct Hev as [-> _]. constructor; auto.
Qed.

Lemma uploadLoop_starts rx fuel :
  0 < chunkSize E ->
  forall start m o m' t,
    uploadLoop E fuel rx start m = (o, m', t) ->
    Sorted.StronglySorted Z.le (starts t) /\ Forall (fun x => start <= x) (starts t).
Proof.
  intros HC. induction fuel as [|fuel IH]; intros start m o m' t H.
  - simpl in H. destruct (start <? ContentLength rx); inversion H; split; constructor.
  - destruct (Z.ltb_spec start (ContentLength rx)) as [Hlt|Hge].
    2:{ rewrite (uploadLoop_end E (S fuel) rx start m Hge) in H. inversion H.
        split; constructor. }
    rewrite (uploadLoop_step E fuel rx start Hlt) in H.
    assert (Hhere : forall op mp tp,
               pacer_Call (sendChunk rx start (reqSizeAt E rx start)) m = (op, mp, tp) ->
               Forall (fun x => x = start) (starts tp)).
    { intros op mp tp Hp.
      apply (pacer_sendChunk_chunkStep rx start _ (pacer_retries E)) in Hp.
      exact (chunkStep_starts _ _ _ _ Hp). }
    assert (Hdone : forall tp, Forall (fun x => x = start) (starts tp) ->
               Sorted.StronglySorted Z.le (starts tp)
               /\ Forall (fun x => start <= x) (starts tp)).
    { intros tp Htp. split; [exact (Forall_const_sorted _ _ Htp)|].
      eapply Forall_impl; [|exact Htp]. intros y ->. lia. }
    apply bind_inv in H.
    destruct H as [(a & m1 & t1 & t2 & Hp & Hk & ->) | [[Hp _] | [Hp _]]];
      try (apply Hdone; eapply Hhere; exact Hp).
    pose proof (Hhere _ _ _ Hp) as H1.
    destruct a as [e|].
    { inversion Hk; subst. rewrite app_nil_r. apply Hdone. exact H1. }
    destruct (IH _ _ _ _ _ Hk) as [Hs2 Hge2].
    pose proof (reqSizeAt_min E rx start) as Hlen.
    rewrite starts_app. split.
    + apply sorted_app; [exact (Forall_const_sorted _ _ H1) | exact Hs2 |].
      intros x y Hx Hy.
      rewrite Forall_forall in H1, Hge2.
      rewrite (H1 x Hx). specialize (Hge2 y Hy). lia.
    + apply Forall_app. split.
      * eapply Forall_impl; [|exact H1]. intros y ->. lia.
      * eapply Forall_impl; [|exact Hge2]. intros y Hy. simpl in Hy. lia.
Qed.

Lemma chunksLeft_step rx start :
  0 < chunkSize E -> start < ContentLength rx ->
  chunksLeft E rx start = S (chunksLeft E rx (start + reqSizeAt E rx start)).
Proof.
  intros HC Hlt. unfold chunksLeft. rewrite reqSizeAt_min.
  assert (Hr : 0 < ContentLength rx - start) by lia.
  assert (Hq : 0 <= (ContentLength rx - start - 1) / chunkSize E)
    by (apply Z.div_pos; lia).
  assert (Hleft : (ContentLength rx - start + chunkSize E - 1) / chunkSize E
                  = (ContentLength rx - start - 1) / chunkSize E + 1).
  { replace (ContentLength rx - start + chunkSize E - 1)
      with ((ContentLength rx - start - 1) + 1 * chunkSize E) by lia.
    apply Z.div_add. lia. }
  assert (Hnext : (ContentLength rx
                   - (start + Z.min (chunkSize E) (ContentLength rx - start))
                   + chunkSize E - 1) / chunkSize E
                  = (ContentLength rx - start - 1) / chunkSize E).
  { destruct (Z.le_gt_cases (chunkSize E) (ContentLength rx - start)) as [Hbig|Hsmall].
    - rewrite Z.min_l by lia. f_equal. lia.
    - rewrite Z.min_r by lia.
      replace (ContentLength rx - (start + (ContentLength rx - start)) + chunkSize E - 1)
        with (chunkSize E - 1) by lia.
      rewrite (Z.div_small (chunkSize E - 1)) by lia.
      rewrite (Z.div_small (ContentLength rx - start - 1)) by lia.
      reflexivity. }
  rewrite Hleft, Hnext. rewrite Z2Nat.inj_add by lia. rewrite Nat.add_1_r. reflexivity.
Qed.

Lemma sendChunk_requests_le rx start reqSize (m : Mem E) o m' t :
  sendChunk rx start reqSize m = (o, m', t) -> (List.length (requests t) <= 1)%nat.
Proof.
  intros H. apply sendChunk_trace in H.
  destruct H as [(_ & _ & ->) | (req & out & _ & _ & [(_ & ->) | (code & err & _ & ->)])];
    simpl; lia.
Qed.

Lemma pacer_sendChunk_requests_le rx start reqSize n :
  forall (m : Mem E) o m' t,
    pacer_call n (sendChunk rx start reqSize) m = (o, m', t) ->
    (List.length (requests t) <= S n)%nat.
Proof.
  induction n as [|n IH]; intros m o m' t H;
    apply pacer_call_inv in H;
    destruct H as [(e & t1 & H1 & _ & ->) | [(e & t1 & H1 & Hn & _ & ->)
      | [(e & m1 & t1 & n' & t2 & H1 & Hn & Hrec & ->)
        | (t1 & [[H1 _]|[H1 _]] & ->)]]];
    try discriminate;
    apply sendChunk_requests_le in H1;
    simpl; repeat rewrite requests_app; repeat rewrite length_app; simpl; try lia.
  injection Hn as <-. apply IH in Hrec. lia.
Qed.

Lemma uploadLoop_requests_le rx fuel :
  0 < chunkSize E ->
  forall start m o m' t,
    uploadLoop E fuel rx start m = (o, m', t) ->
    (List.length (requests t) <= S (pacer_retries E) * chunksLeft E rx start)%nat.
Proof.
  intros HC. induction fuel as [|fuel IH]; intros start m o m' t H.
  - simpl in H. destruct (start <? ContentLength rx); inversion H; simpl; lia.
  - destruct (Z.ltb_spec start (ContentLength rx)) as [Hlt|Hge].
    2:{ rewrite (uploadLoop_end E (S fuel) rx start m Hge) in H. inversion H. simpl. lia. }
    rewrite (uploadLoop_step E fuel rx start Hlt) in H.
    rewrite (chunksLeft_step rx start HC Hlt).
    apply bind_inv in H.
    destruct H as [(a & m1 & t1 & t2 & Hp & Hk & ->) | [[Hp _] | [Hp _]]];
      apply pacer_sendChunk_requests_le in Hp; try nia.
    rewrite requests_app, length_app.
    destruct a as [e|].
    + inversion Hk; subst. simpl. nia.
    + apply IH in Hk. nia.
Qed.

Lemma pacer_sendChunk_makeRequest rx start reqSize n (m : Mem E) o m' t req :
  pacer_call n (sendChunk rx start reqSize) m = (o, m', t) ->
  In req (requests t) ->
  makeRequest E rx start reqSize = Some req.
Proof.
  intros H Hin. apply (pacer_sendChunk_chunkStep rx start reqSize n) in H.
  destruct (requests_In req t Hin) as (out & Hev).
  unfold always in H. rewrite Forall_forall in H. exact (H _ Hev).
Qed.

(** The requests of the loop, chunk by chunk: one block for each
    iteration, at ascending offsets. *)
Lemma uploadLoop_blocks rx fuel :
  0 < chunkSize E ->
  forall start m o m' t,
    start mod chunkSize E = 0 -> 0 <= start ->
    uploadLoop E fuel rx start m = (o, m', t) ->
    exists blocks : list (Z * list Request),
      requests t = flat_map snd blocks
      /\ Sorted.StronglySorted Z.lt (map fst blocks)
      /\ Forall (fun b => start <= fst b) blocks
      /\ Forall (chunkBlock E rx) blocks
      /\ (List.length blocks <= chunksLeft E rx start)%nat.
Proof.
  intros HC. induction fuel as [|fuel IH]; intros start m o m' t Hmod H0 H.
  - simpl in H. destruct (start <? ContentLength rx); inversion H; exists [];
      simpl; (split; [reflexivity|]); (split; [constructor|]); (split; [constructor|]);
      (split; [constructor|]); lia.
  - destruct (Z.ltb_spec start (ContentLength rx)) as [Hlt|Hge].
    2:{ rewrite (uploadLoop_end E (S fuel) rx start m Hge) in H. inversion H. exists [].
        simpl. (split; [reflexivity|]); (split; [constructor|]); (split; [constructor|]);
        (split; [constructor|]); lia. }
    rewrite (uploadLoop_step E fuel rx start Hlt) in H.
    assert (Hb : forall op mp tp,
               pacer_Call (sendChunk rx start (reqSizeAt E rx start)) m = (op, mp, tp) ->
               chunkBlock E rx (start, requests tp)).
    { intros op mp tp Hp. split; [apply chunkAt_here; auto; lia|]. split.
      - exact (pacer_sendChunk_requests_le rx start _ _ _ _ _ _ Hp).
      - intros req Hin. simpl in *.
        exact (pacer_sendChunk_makeRequest rx start _ _ _ _ _ _ req Hp Hin). }
    assert (Hone : forall tp,
               chunkBlock E rx (start, requests tp) ->
               exists blocks : list (Z * list Request),
                 requests tp = flat_map snd blocks
                 /\ Sorted.StronglySorted Z.lt (map fst blocks)
                 /\ Forall (fun b => start <= fst b) blocks
                 /\ Forall (chunkBlock E rx) blocks
                 /\ (List.length blocks <= chunksLeft E rx start)%nat).
    { intros tp Hcb. exists [(start, requests tp)]. simpl. rewrite app_nil_r.
      split; [reflexivity|]. split; [repeat constructor|].
      split; [constructor; [simpl; lia | constructor]|].
      split; [constructor; [exact Hcb | constructor]|].
      rewrite (chunksLeft_step rx start HC Hlt). lia. }
    apply bind_inv in H.
    destruct H as [(a & m1 & t1 & t2 & Hp & Hk & ->) | [[Hp _] | [Hp _]]];
      try (apply Hone; eapply Hb; exact Hp).
    pose proof (Hb _ _ _ Hp) as Hcb.
    destruct a as [e|].
    { inversion Hk; subst. rewrite app_nil_r. apply Hone. exact Hcb. }
    destruct (next_start rx start HC Hmod ltac:(lia)) as [Hnext Hnmod].
    destruct (Z.ltb_spec (start + reqSizeAt E rx start) (ContentLength rx)) as [Hlt2|Hge2].
    + destruct (IH _ _ _ _ _ (Hnmod Hlt2) ltac:(lia) Hk)
        as (blocks & Hreq & Hs & Hge & Hall & Hlen).
      exists ((start, requests t1) :: blocks). rewrite requests_app. simpl.
      split; [rewrite Hreq; reflexivity|].
      split.
      { constructor; [exact Hs|]. rewrite Forall_map.
        eapply Forall_impl; [|exact Hge]. intros b Hb'. simpl in *. lia. }
      split.
      { constructor; [simpl; lia|].
        eapply Forall_impl; [|exact Hge]. intros b Hb'. simpl in *. lia. }
      split; [constructor; assumption|].
      rewrite (chunksLeft_step rx start HC Hlt). lia.
    + rewrite (uploadLoop_end E fuel rx _ m1 Hge2) in Hk. inversion Hk; subst.
      rewrite app_nil_r. apply Hone. exact Hcb.
Qed.

Lemma uploadLoop_terminates rx fuel :
  0 < chunkSize E ->
  forall start m,
    (chunksLeft E rx start <= fuel)%nat ->
    fst (fst (uploadLoop E fuel rx start m)) <> OutOfFuel.
Proof.
  intros HC. induction fuel as [|fuel IH]; intros start m Hfuel.
  - destruct (Z.ltb_spec start (ContentLength rx)) as [Hlt|Hge].
    + rewrite (chunksLeft_step rx start HC Hlt) in Hfuel. lia.
    + rewrite uploadLoop_end by exact Hge. discriminate.
  - destruct (Z.ltb_spec start (ContentLength rx)) as [Hlt|Hge].
    + rewrite (chunksLeft_step rx start HC Hlt) in Hfuel.
      rewrite (uploadLoop_step E fuel rx start Hlt).
      pose proof (pacer_sendChunk_comes_back E rx start (reqSizeAt E rx start)
                    (pacer_retries E) m) as Hp.
      unfold bind, pacer_Call.
      destruct (pacer_call _ _ m) as [[[[e|]| |] m1] t1]; simpl in *;
        try discriminate; try contradiction.
      specialize (IH (start + reqSizeAt E rx start) m1).
      destruct (uploadLoop E fuel rx (start + reqSizeAt E rx start) m1) as [[o2 m2] t2].
      simpl in *. apply IH. lia.
    + rewrite uploadLoop_end by exact Hge. discriminate.
Qed.

End Cursor.

(** X2.  In every run of [Upload] with a positive chunk size, however it
    ends, the offsets of the attempts never go back, and every attempt is
    for a chunk of the upload: its offset is a multiple of the chunk size
    inside the file, and its size is the chunk size or what remains. *)
Theorem cursor_stays_on_chunks (E : Env) fuel rx m o m' t :
  0 < chunkSize E ->
  Upload E fuel rx m = (o, m', t) ->
  Sorted.StronglySorted Z.le (starts t)
  /\ forall start reqSize, In (EvDebug start reqSize) t -> chunkAt E rx start reqSize.
Proof.
  intros HC H. apply Upload_inv in H.
  destruct H as [(_ & _ & _ & ->) | (_ & o' & Hloop)].
  - split; [constructor | intros ? ? []].
  - split.
    + exact (proj1 (uploadLoop_starts E rx fuel HC _ _ _ _ _ Hloop)).
    + intros start reqSize Hin.
      pose proof (uploadLoop_ofChunk E rx fuel HC 0 _ _ _ _ eq_refl ltac:(lia) Hloop) as Hall.
      rewrite Forall_forall in Hall. exact (Hall _ Hin).
Qed.

(** Ten bytes in chunks of four; the second chunk meets a connection
    reset before it is accepted. *)
Lemma cursor_stays_on_chunks_witness :
  let t := snd (Upload (Demo.env 9 4) 3 Demo.rx10
                  (Demo.mem0 9 4 [Demo.reply 308 [] ""; Demo.broken "reset";
                                  Demo.reply 308 [] ""; Demo.reply 201 [] "f1"])) in
  starts t = [0; 4; 4; 8]
  /\ Sorted.StronglySorted Z.le (starts t)
  /\ forall start reqSize,
      In (EvDebug start reqSize) t -> chunkAt (Demo.env 9 4) Demo.rx10 start reqSize.
Proof.
  intros t. split; [reflexivity|].
  pose (r := Upload (Demo.env 9 4) 3 Demo.rx10
               (Demo.mem0 9 4 [Demo.reply 308 [] ""; Demo.broken "reset";
                               Demo.reply 308 [] ""; Demo.reply 201 [] "f1"])).
  apply (cursor_stays_on_chunks (Demo.env 9 4) 3 Demo.rx10
           (Demo.mem0 9 4 [Demo.reply 308 [] ""; Demo.broken "reset";
                           Demo.reply 308 [] ""; Demo.reply 201 [] "f1"])
           (fst (fst r)) (snd (fst r)) (snd r)).
  - simpl. lia.
  - reflexivity.
Defined.

(** X1.  In every run of [Upload] with a positive chunk size, every
    request handed to the HTTP client is a POST to the session URI with
    the media type as Content-Type, a content length between 1 and the
    chunk size, and the Content-Range of the chunk of that length at some
    chunk offset of the upload. *)
Theorem requests_are_chunks (E : Env) fuel rx m o m' t :
  0 < chunkSize E ->
  Upload E fuel rx m = (o, m', t) ->
  forall req, In req (requests t) ->
    req_Method req = "POST"
    /\ req_URL req = URI rx
    /\ Header_Get "Content-Type" (req_Header req) = MediaType rx
    /\ 0 < req_ContentLength req <= chunkSize E
    /\ exists start,
        chunkAt E rx start (req_ContentLength req)
        /\ Header_Get "Content-Range" (req_Header req)
           = contentRange start (req_ContentLength req) (ContentLength rx).
Proof.
  intros HC H req Hin. apply Upload_inv in H.
  destruct H as [(_ & _ & _ & ->) | (_ & o' & Hloop)]; [destruct Hin|].
  pose proof (uploadLoop_ofChunk E rx fuel HC 0 _ _ _ _ eq_refl ltac:(lia) Hloop) as Hall.
  rewrite Forall_forall in Hall.
  destruct (requests_In req t Hin) as (out & Hev).
  destruct (Hall _ Hev) as (s & l & Hat & Hreq).
  destruct (makeRequest_shape E rx s l req Hreq) as (Hm & Hu & Hl & Hct).
  destruct (makeRequest_chunk E rx s l req Hreq) as (_ & _ & Hrange).
  pose proof Hat as (Hmod & Hs & Hlen).
  repeat split; auto; try lia.
  exists s. rewrite Hl. split; [exact Hat|]. apply Hrange. lia.
Qed.

Lemma requests_are_chunks_witness :
  let t := snd (Upload (Demo.env 9 4) 3 Demo.rx10
                  (Demo.mem0 9 4 [Demo.reply 308 [] ""; Demo.broken "reset";
                                  Demo.reply 308 [] ""; Demo.reply 201 [] "f1"])) in
  List.length (requests t) = 4%nat
  /\ forall req, In req (requests t) ->
       req_Method req = "POST"
       /\ req_URL req = "https://session/1"
       /\ Header_Get "Content-Type" (req_Header req) = "text/plain"
       /\ 0 < req_ContentLength req <= 4
       /\ exists start,
           chunkAt (Demo.env 9 4) Demo.rx10 start (req_ContentLength req)
           /\ Header_Get "Content-Range" (req_Header req)
              = contentRange start (req_ContentLength req) 10.
Proof.
  intros t. split; [reflexivity|].
  pose (r := Upload (Demo.env 9 4) 3 Demo.rx10
               (Demo.mem0 9 4 [Demo.reply 308 [] ""; Demo.broken "reset";
                               Demo.reply 308 [] ""; Demo.reply 201 [] "f1"])).
  apply (requests_are_chunks (Demo.env 9 4) 3 Demo.rx10
           (Demo.mem0 9 4 [Demo.reply 308 [] ""; Demo.broken "reset";
                           Demo.reply 308 [] ""; Demo.reply 201 [] "f1"])
           (fst (fst r)) (snd (fst r)) (snd r)).
  - simpl. lia.
  - reflexivity.
Defined.

(** X3.  A run of [Upload] with a positive chunk size hands the HTTP
    client at most (1 + retries) requests for each chunk of the upload,
    however it ends: its requests are, in order, one block for each chunk
    it came to, at strictly ascending chunk offsets, each block of at
    most (1 + retries) requests, which are the requests for the chunk at
    that offset; there are at most as many blocks as the upload has
    chunks, so at most (1 + retries) times that many requests in all. *)
Theorem attempts_are_bounded (E : Env) fuel rx m o m' t :
  0 < chunkSize E ->
  Upload E fuel rx m = (o, m', t) ->
  (exists blocks : list (Z * list Request),
      requests t = flat_map snd blocks
      /\ Sorted.StronglySorted Z.lt (map fst blocks)
      /\ Forall (chunkBlock E rx) blocks
      /\ (List.length blocks <= chunkCount E rx)%nat)
  /\ (List.length (requests t) <= S (pacer_retries E) * chunkCount E rx)%nat.
Proof.
  intros HC H. apply Upload_inv in H.
  destruct H as [(_ & _ & _ & ->) | (_ & o' & Hloop)].
  - split; [|simpl; lia]. exists []. simpl.
    split; [reflexivity|]. split; [constructor|]. split; [constructor|]. lia.
  - split; [|exact (uploadLoop_requests_le E rx fuel HC _ _ _ _ _ Hloop)].
    destruct (uploadLoop_blocks E rx fuel HC 0 _ _ _ _ eq_refl ltac:(lia) Hloop)
      as (blocks & Hreq & Hs & _ & Hall & Hlen).
    exists blocks. repeat split; assumption.
Qed.

(** Ten bytes in chunks of four, one retry: the first chunk is accepted
    at once, the second meets a 503 and then a reset, and the run ends
    there with three requests, one for the first chunk and two for the
    second. *)
Lemma attempts_are_bounded_witness :
  let t := snd (Upload (Demo.env 1 4) 3 Demo.rx10
                  (Demo.mem0 1 4 [Demo.reply 308 [] ""; Demo.reply 503 [] "";
                                  Demo.broken "reset"])) in
  contentRanges t = ["bytes 0-3/10"; "bytes 4-7/10"; "bytes 4-7/10"]
  /\ (exists blocks : list (Z * list Request),
         requests t = flat_map snd blocks
         /\ Sorted.StronglySorted Z.lt (map fst blocks)
         /\ Forall (chunkBlock (Demo.env 1 4) Demo.rx10) blocks
         /\ (List.length blocks <= chunkCount (Demo.env 1 4) Demo.rx10)%nat)
  /\ (List.length (requests t) <= 2 * chunkCount (Demo.env 1 4) Demo.rx10)%nat.
Proof.
  intros t. split; [reflexivity|].
  pose (r := Upload (Demo.env 1 4) 3 Demo.rx10
               (Demo.mem0 1 4 [Demo.reply 308 [] ""; Demo.reply 503 [] "";
                               Demo.broken "reset"])).
  apply (attempts_are_bounded (Demo.env 1 4) 3 Demo.rx10
           (Demo.mem0 1 4 [Demo.reply 308 [] ""; Demo.reply 503 [] "";
                           Demo.broken "reset"])
           (fst (fst r)) (snd (fst r)) (snd r)).
  - simpl. lia.
  - reflexivity.
Defined.

(** X12.  With a positive chunk size the loop ends: it makes at most one
    iteration for each chunk of the upload, so that [Upload] returns or
    panics, and what it does is the same for every amount of fuel from
    the number of chunks on. *)
Theorem Upload_ends (E : Env) fuel rx m :
  0 < chunkSize E ->
  (chunkCount E rx <= fuel)%nat ->
  Upload E fuel rx m = Upload E (chunkCount E rx) rx m
  /\ fst (fst (Upload E fuel rx m)) <> OutOfFuel.
Proof.
  intros HC Hfuel.
  pose proof (uploadLoop_terminates E rx (chunkCount E rx) HC 0 (set_StatusCode 0 m)
                (Nat.le_refl _)) as Hend.
  destruct (uploadLoop E (chunkCount E rx) rx 0 (set_StatusCode 0 m))
    as [[o1 m1] t1] eqn:Hloop.
  simpl in Hend.
  pose proof (uploadLoop_more_fuel E rx _ _ _ _ _ _ Hloop Hend fuel Hfuel) as Hmore.
  assert (Heq : Upload E fuel rx m = Upload E (chunkCount E rx) rx m).
  { rewrite !Upload_unfold by lia. rewrite Hmore, Hloop. reflexivity. }
  split; [exact Heq|].
  rewrite Heq, Upload_unfold by lia. rewrite Hloop.
  destruct o1 as [[e|]| |]; simpl; try discriminate.
  - destruct (rx_ret m1); discriminate.
  - contradiction Hend. reflexivity.
Qed.

Lemma Upload_ends_witness :
  chunkCount (Demo.env 9 4) Demo.rx10 = 3%nat
  /\ Upload (Demo.env 9 4) 50 Demo.rx10
       (Demo.mem0 9 4 [Demo.reply 308 [] ""; Demo.reply 308 [] ""; Demo.reply 201 [] "f1"])
     = Upload (Demo.env 9 4) 3 Demo.rx10
         (Demo.mem0 9 4 [Demo.reply 308 [] ""; Demo.reply 308 [] ""; Demo.reply 201 [] "f1"]).
Proof.
  split; [reflexivity|].
  refine (proj1 (Upload_ends (Demo.env 9 4) 50 Demo.rx10
                   (Demo.mem0 9 4 [Demo.reply 308 [] ""; Demo.reply 308 [] "";
                                   Demo.reply 201 [] "f1"]) _ _)).
  - simpl. lia.
  - vm_compute. repeat constructor.
Defined.

(** ** A server that follows the protocol *)

Section Protocol.

Context (E : Env).



Variable rx : resumableUpload.
Variable held : Conn E -> Z -> Prop.
Variable file : File E.

Hypothesis chunk_positive : 0 < chunkSize E.
Hypothesis uri_valid : validURL E (URI rx) = true.
Hypothesis server_follows :
  forall c start req,
    held c start -> 0 <= start < ContentLength rx ->
    makeRequest E rx start (reqSizeAt E rx start) = Some req ->
    exists res c',
      client_Do E req c = ((Some res, None), c')
      /\ held c' (start + reqSizeAt E rx start)
      /\ (start + reqSizeAt E rx start < ContentLength rx -> StatusCode res = 308)
      /\ (start + reqSizeAt E rx start = ContentLength rx ->
          (StatusCode res = 200 \/ StatusCode res = 201)
          /\ forall r, json_Decode E (resp_Body res) r = (Some file, None)).


End Protocol.



(** ** More on the negotiation *)

Section NegotiationMore.

Context (E : Env).

Lemma firstRequest_shape f size contentType fileID body :
  let req := firstRequest E f size contentType fileID body in
  req_Method req = (if String.eqb fileID "" then "POST" else "PATCH")
  /\ Header_Get "Content-Type" (req_Header req) = "application/json; charset=UTF-8"
  /\ Header_Get "X-Upload-Content-Type" (req_Header req) = contentType
  /\ Header_Get "X-Upload-Content-Length" (req_Header req) = sprintv size
  /\ isChunkRequest req = false.
Proof.
  unfold firstRequest, negotiationURL.
  destruct (String.eqb fileID ""); simpl; repeat split; reflexivity.
Qed.

(** The closure of the negotiation, step by step. *)
Lemma negotiate_encoding_fails f size contentType fileID info (m : Mem E) e :
  JSONReader E info = inr e ->
  negotiate f size contentType fileID info m = (Ret (false, Some e), m, []).
Proof.
  intros HJ. unfold negotiate. destruct (negotiationURL E f fileID) as [method urls].
  rewrite HJ. reflexivity.
Qed.

Lemma negotiate_answered f size contentType fileID info (m : Mem E) body res c :
  JSONReader E info = inl body ->
  validURL E (snd (negotiationURL E f fileID)) = true ->
  client_Do E (firstRequest E f size contentType fileID body) (conn m)
  = ((Some res, None), c) ->
  negotiate f size contentType fileID info m
  = (Ret (shouldRetry E (CheckResponse res)),
     set_res (Some res) (set_conn c m),
     [EvDo (firstRequest E f size contentType fileID body) (Some res, None)]).
Proof.
  intros HJ Hvalid HDo. unfold negotiate, firstRequest in *.
  destruct (negotiationURL E f fileID) as [method urls]. simpl in Hvalid.
  rewrite HJ, Hvalid. simpl in HDo |- *.
  unfold bind, client_call, modify, deref, ret. simpl. rewrite HDo. reflexivity.
Qed.

Lemma negotiate_ofUpload f size contentType fileID info :
  Sound (always E (ofUpload E f size contentType fileID))
    (negotiate (E := E) f size contentType fileID info).
Proof.
  pose proof (always_comp E (ofUpload E f size contentType fileID)) as HC.
  unfold negotiate.
  destruct (negotiationURL E f fileID) as [method urls] eqn:HU.
  destruct (JSONReader E info) as [body|e]; [|apply Sound_ret; exact HC].
  destruct (negb (validURL E urls)); [apply Sound_ret; exact HC|].
  apply Sound_bind; [exact HC | | ].
  - apply Sound_client_call. intros out. right. exists body.
    unfold firstRequest. rewrite HU. reflexivity.
  - intros [res err]. apply Sound_bind; [exact HC | apply Sound_modify |].
    intros _. destruct err as [e|]; [apply Sound_ret; exact HC|].
    apply Sound_bind; [exact HC | apply Sound_deref |].
    intros r. apply Sound_ret; exact HC.
Qed.

Lemma Stable_ofUpload f size contentType fileID :
  Stable (always E (ofUpload E f size contentType fileID)).
Proof.
  constructor.
  - apply always_comp.
  - intros m. unfold always. repeat constructor.
  - intros m again. unfold always. repeat constructor.
  - intros m start reqSize. unfold always. repeat constructor.
  - intros m code err. unfold always. repeat constructor.
  - intros rx start reqSize m o m' t H. unfold always.
    apply transferChunk_inv in H.
    destruct H as [(_ & _ & _ & ->) | (req & res & err & c & Hreq & _ & -> & _)];
      [constructor|].
    constructor; [|constructor]. left.
    exact (proj1 (proj2 (makeRequest_chunk E rx start reqSize req Hreq))).
Qed.

End NegotiationMore.

(** X13.  Every request of a run of [Fs.Upload] is either a chunk request
    or the negotiation request, and the negotiation request is a POST when
    no file id is given and a PATCH otherwise, with a JSON content type
    and the media type and the size of the upload in the
    [X-Upload-Content-Type] and [X-Upload-Content-Length] headers. *)
Theorem negotiation_request_shape (E : Env) fuel f size contentType fileID info remote
    m o m' t :
  Fs_Upload E fuel f size contentType fileID info remote m = (o, m', t) ->
  forall req, In req (requests t) ->
    isChunkRequest req = true
    \/ (req_Method req = (if String.eqb fileID "" then "POST" else "PATCH")
        /\ Header_Get "Content-Type" (req_Header req) = "application/json; charset=UTF-8"
        /\ Header_Get "X-Upload-Content-Type" (req_Header req) = contentType
        /\ Header_Get "X-Upload-Content-Length" (req_Header req) = sprintv size
        /\ isChunkRequest req = false).
Proof.
  intros H req Hin.
  assert (Hall : Forall (ofUpload E f size contentType fileID) t).
  { pose proof (always_comp E (ofUpload E f size contentType fileID)) as [Hnil Happ].
    rewrite Fs_Upload_unfold in H.
    destruct (pacer_Call (negotiate f size contentType fileID info) (set_res None m))
      as [[o1 m1] t1] eqn:Hneg.
    assert (H1 : Forall (ofUpload E f size contentType fileID) t1).
    { refine (Sound_pacer_call _ _ (always_comp E _) _ _
                (negotiate_ofUpload E f size contentType fileID info) _ _ _ _ _ Hneg);
        intros; unfold always; repeat constructor. }
    destruct o1 as [[e|]| |]; try (inversion H; subst; exact H1).
    destruct (var_res m1) as [res|]; [|inversion H; subst; exact H1].
    destruct (Upload E fuel _ (set_ret None m1)) as [[o2 m2] t2] eqn:HU.
    inversion H; subst. apply Forall_app. split; [exact H1|].
    apply Upload_inv in HU.
    destruct HU as [(_ & _ & _ & ->) | (_ & o' & Hloop)]; [constructor|].
    exact (Sound_uploadLoop _ _ (Stable_ofUpload E f size contentType fileID)
             _ _ _ _ _ _ Hloop). }
  rewrite Forall_forall in Hall.
  destruct (requests_In req t Hin) as (out & Hev).
  destruct (Hall _ Hev) as [Hchunk | (body & ->)]; [left; exact Hchunk|].
  right. apply firstRequest_shape.
Qed.

(** An update in place of the file [abc], ten bytes in chunks of four. *)
Lemma negotiation_request_shape_witness :
  let t := snd (Fs_Upload (Demo.env 9 4) 3 (mkFs true) 10 "text/plain" "abc" None "a.bin"
                  (Demo.mem0 9 4 [Demo.reply 200 [("Location", "https://session/1")] "";
                                  Demo.reply 308 [] ""; Demo.reply 308 [] "";
                                  Demo.reply 200 [] "f1"])) in
  map req_Method (requests t) = ["PATCH"; "POST"; "POST"; "POST"]
  /\ forall req, In req (requests t) ->
       isChunkRequest req = true
       \/ (req_Method req = "PATCH"
           /\ Header_Get "Content-Type" (req_Header req) = "application/json; charset=UTF-8"
           /\ Header_Get "X-Upload-Content-Type" (req_Header req) = "text/plain"
           /\ Header_Get "X-Upload-Content-Length" (req_Header req) = "10"
           /\ isChunkRequest req = false).
Proof.
  intros t. split; [reflexivity|].
  pose (r := Fs_Upload (Demo.env 9 4) 3 (mkFs true) 10 "text/plain" "abc" None "a.bin"
               (Demo.mem0 9 4 [Demo.reply 200 [("Location", "https://session/1")] "";
                               Demo.reply 308 [] ""; Demo.reply 308 [] "";
                               Demo.reply 200 [] "f1"])).
  exact (negotiation_request_shape (Demo.env 9 4) 3 (mkFs true) 10 "text/plain" "abc" None
           "a.bin"
           (Demo.mem0 9 4 [Demo.reply 200 [("Location", "https://session/1")] "";
                           Demo.reply 308 [] ""; Demo.reply 308 [] "";
                           Demo.reply 200 [] "f1"])
           (fst (fst r)) (snd (fst r)) (snd r) eq_refl).
Defined.

(** X14.  When the metadata cannot be encoded, [Fs.Upload] returns the
    encoder's error: the closure is called once, it is not retried, and
    no request at all is handed to the HTTP client. *)
Theorem encoding_failure_sends_nothing (E : Env) fuel f size contentType fileID info remote
    m e :
  JSONReader E info = inr e ->
  Fs_Upload E fuel f size contentType fileID info remote m
  = (Ret (None, Some e), set_res None m, [EvPacerBegin; EvPacerEnd false]).
Proof.
  intros HJ. rewrite Fs_Upload_unfold. unfold pacer_Call.
  rewrite (pacer_call_done E _ _ _ _ _ _
             (negotiate_encoding_fails E f size contentType fileID info
                (set_res None m) e HJ)).
  reflexivity.
Qed.

Lemma encoding_failure_sends_nothing_witness :
  Fs_Upload (Servers.picky 9 4) 3 (mkFs false) 10 "text/plain" "" None "a.bin"
    (mkMem (Servers.picky 9 4) [Demo.reply 200 [("Location", "https://session/1")] ""]
       None 0 None)
  = (Ret (None, Some (ErrJSON "nil record")),
     mkMem (Servers.picky 9 4) [Demo.reply 200 [("Location", "https://session/1")] ""]
       None 0 None,
     [EvPacerBegin; EvPacerEnd false]).
Proof.
  exact (encoding_failure_sends_nothing (Servers.picky 9 4) 3 (mkFs false) 10 "text/plain"
           "" None "a.bin"
           (mkMem (Servers.picky 9 4) [Demo.reply 200 [("Location", "https://session/1")] ""]
              None 0 None)
           (ErrJSON "nil record") eq_refl).
Defined.

(** X15.  A negotiation that is answered with a status outside 2xx, for
    which the retry predicate wants no retry, ends [Fs.Upload] after that
    one request with the HTTP error of that status; no chunk is sent. *)
Theorem negotiation_refused (E : Env) fuel f size contentType fileID info remote
    m body res c :
  JSONReader E info = inl body ->
  validURL E (snd (negotiationURL E f fileID)) = true ->
  client_Do E (firstRequest E f size contentType fileID body) (conn m)
  = ((Some res, None), c) ->
  ~ 200 <= StatusCode res <= 299 ->
  retryable E (ErrHTTP (StatusCode res)) = false ->
  Fs_Upload E fuel f size contentType fileID info remote m
  = (Ret (None, Some (ErrHTTP (StatusCode res))),
     set_res (Some res) (set_conn c (set_res None m)),
     [EvPacerBegin;
      EvDo (firstRequest E f size contentType fileID body) (Some res, None);
      EvPacerEnd false]).
Proof.
  intros HJ Hvalid HDo Hcode Hno.
  pose proof (negotiate_answered E f size contentType fileID info (set_res None m)
                body res c HJ Hvalid HDo) as Hneg.
  assert (HCk : CheckResponse res = Some (ErrHTTP (StatusCode res))).
  { unfold CheckResponse.
    destruct ((200 <=? StatusCode res) && (StatusCode res <=? 299)) eqn:Hb; [|reflexivity].
    apply andb_true_iff in Hb. destruct Hb as [H1 H2]. apply Z.leb_le in H1, H2. lia. }
  rewrite HCk in Hneg. simpl in Hneg. rewrite Hno in Hneg.
  rewrite Fs_Upload_unfold. unfold pacer_Call.
  rewrite (pacer_call_done E _ _ _ _ _ _ Hneg). reflexivity.
Qed.

Lemma negotiation_refused_witness :
  fst (fst (Fs_Upload (Demo.env 9 4) 3 (mkFs false) 10 "text/plain" "" None "a.bin"
              (Demo.mem0 9 4 [Demo.reply 404 [] ""; Demo.reply 308 [] ""])))
  = Ret (None, Some (ErrHTTP 404)).
Proof.
  rewrite (negotiation_refused (Demo.env 9 4) 3 (mkFs false) 10 "text/plain" "" None "a.bin"
             (Demo.mem0 9 4 [Demo.reply 404 [] ""; Demo.reply 308 [] ""])
             "{}" (mkResponse 404 [] "") [Demo.reply 308 [] ""]).
  - reflexivity.
  - reflexivity.
  - reflexivity.
  - reflexivity.
  - simpl. lia.
  - reflexivity.
Defined.

(** X16.  A session URI that [http.NewRequest] does not accept is not
    reported as an error: for a positive size the first iteration of the
    loop dereferences the nil request and [Upload] panics, before any
    request is handed to the HTTP client. *)
Theorem bad_session_URI_panics (E : Env) fuel rx m :
  validURL E (URI rx) = false ->
  0 < ContentLength rx ->
  0 <= chunkSize E ->
  Upload E (S fuel) rx m
  = (Panic, set_StatusCode 0 m, [EvPacerBegin; EvDebug 0 (reqSizeAt E rx 0)]).
Proof.
  intros Hbad Hsize HC.
  assert (HS : sendChunk rx 0 (reqSizeAt E rx 0) (set_StatusCode 0 m)
               = (Panic, set_StatusCode 0 m, [EvDebug 0 (reqSizeAt E rx 0)])).
  { unfold sendChunk, transferChunk, makeRequest. rewrite Hbad. reflexivity. }
  rewrite Upload_unfold by exact HC.
  rewrite (uploadLoop_step E fuel rx 0 Hsize). unfold bind, pacer_Call.
  rewrite (proj1 (pacer_call_stops E _ _ _ _ _) HS). reflexivity.
Qed.

Lemma bad_session_URI_panics_witness :
  Upload (Servers.picky 9 4) 3 (mkRx "a.bin" "session/1" "text/plain" 10)
    (mkMem (Servers.picky 9 4) [Demo.reply 308 [] ""] None 0 None)
  = (Panic, mkMem (Servers.picky 9 4) [Demo.reply 308 [] ""] None 0 None,
     [EvPacerBegin; EvDebug 0 4]).
Proof.
  refine (bad_session_URI_panics (Servers.picky 9 4) 2
            (mkRx "a.bin" "session/1" "text/plain" 10)
            (mkMem (Servers.picky 9 4) [Demo.reply 308 [] ""] None 0 None) eq_refl _ _);
    simpl; lia.
Defined.

(** X17.  [Fs.Upload] returns a record or an error and never both nor
    neither; the record it returns is the one left in [rx.ret]. *)
Theorem result_or_error (E : Env) fuel f size contentType fileID info remote
    m file err m' t :
  Fs_Upload E fuel f size contentType fileID info remote m = (Ret (file, err), m', t) ->
  (file = None /\ err <> None)
  \/ (err = None /\ file <> None /\ file = rx_ret m').
Proof.
  intros H. rewrite Fs_Upload_unfold in H.
  destruct (pacer_Call (negotiate f size contentType fileID info) (set_res None m))
    as [[[[e|]| |] m1] t1]; try discriminate.
  - inversion H; subst. left. split; [reflexivity | discriminate].
  - destruct (var_res m1) as [res|]; [|discriminate].
    destruct (Upload E fuel _ (set_ret None m1)) as [[o2 m2] t2] eqn:HU.
    inversion H; subst. clear H.
    pose proof HU as HU'. apply Upload_inv in HU'.
    destruct HU' as [(_ & Ho & _) | (HC & _)]; [discriminate|].
    rewrite (Upload_unfold E fuel _ (set_ret None m1) HC) in HU.
    destruct (uploadLoop E fuel _ 0 (set_StatusCode 0 (set_ret None m1)))
      as [[[[e|]| |] m3] t3]; try discriminate.
    + inversion HU; subst. left. split; [reflexivity | discriminate].
    + destruct (rx_ret m3) as [g|] eqn:Hret; inversion HU; subst.
      * right. repeat split; [discriminate | symmetry; exact Hret].
      * left. split; [reflexivity | discriminate].
Qed.

Lemma result_or_error_witness :
  let r := Fs_Upload (Demo.env 9 4) 3 (mkFs false) 10 "text/plain" "" None "a.bin"
             (Demo.mem0 9 4 [Demo.reply 200 [("Location", "https://session/1")] "";
                             Demo.reply 308 [] ""; Demo.reply 308 [] "";
                             Demo.reply 201 [] "f1"]) in
  fst (fst r) = Ret (Some "f1", None)
  /\ ((Some "f1" = None /\ (None : option error) <> None)
      \/ ((None : option error) = None /\ Some "f1" <> None
          /\ Some "f1" = rx_ret (snd (fst r)))).
Proof.
  intros r. split; [reflexivity|].
  exact (result_or_error (Demo.env 9 4) 3 (mkFs false) 10 "text/plain" "" None "a.bin"
           (Demo.mem0 9 4 [Demo.reply 200 [("Location", "https://session/1")] "";
                           Demo.reply 308 [] ""; Demo.reply 308 [] "";
                           Demo.reply 201 [] "f1"])
           (Some "f1") None (snd (fst r)) (snd r) eq_refl).
Defined.
